(** * The Realm list adapter of [js_list.cpp]

    A shallow embedding of the JavaScriptCore binding of [realm::List]:
    the property hooks [ListGetProperty], [ListSetProperty] and
    [ListPropertyNames], and the methods [ListPush], [ListPop],
    [ListUnshift], [ListShift], [ListSplice] and [ListStaticResults].

    The C++ functions run against one shared [List] object and report
    failures by exceptions that each entry point catches.  They are
    embedded in a state-and-exception monad whose state is the list
    together with the [returnObject] slot and the exception slot of the
    running call. *)

From Stdlib Require Import ZArith String Ascii Lia.
From Stdlib Require Import Decimal DecimalString DecimalN DecimalFacts.
From stdpp Require Import base list.

Local Open Scope Z_scope.

(** ** Machine integers

    [size_t] and [long] are taken 64 bits wide (LP64).  Values are kept
    in [Z]; the two conversions below are the wrap-around of the C++
    integral conversions. *)

Definition SIZE_MODULUS : Z := 2 ^ 64.
Definition LONG_MAX : Z := 2 ^ 63 - 1.
Definition LONG_MIN : Z := - 2 ^ 63.

(** Conversion to [size_t]: reduction modulo 2^64. *)
Definition to_size_t (z : Z) : Z := z mod SIZE_MODULUS.

(** Conversion to [long]: the value congruent modulo 2^64 that lies in
    [LONG_MIN .. LONG_MAX]. *)
Definition to_long (z : Z) : Z := (z - LONG_MIN) mod SIZE_MODULUS + LONG_MIN.

(** Conversion of a number to [long], as the parameters of
    [std::min<long>] and [std::max<long>] receive it.  Numbers are the
    integral ones: a value within [LONG_MIN .. LONG_MAX] converts to
    itself.  Outside that range the language leaves the conversion
    undefined; the conversion instruction of x86-64 then gives
    [LONG_MIN], which is what the model takes. *)
Definition double_to_long (number : Z) : Z :=
  if (LONG_MIN <=? number) && (number <=? LONG_MAX) then number else LONG_MIN.

(** ** Exceptions

    One constructor per kind of failure of the error taxonomy.  The
    handlers of [js_list.cpp] tell three classes apart:
    [std::out_of_range], [std::invalid_argument] and any other
    [std::exception]. *)

Inductive exn : Type :=
| OutOfRange              (* std::out_of_range of the collection's index check *)
| NotAnIndexKey           (* std::invalid_argument of the key parser *)
| ReadOnlyProperty        (* std::runtime_error("The 'length' property is readonly.") *)
| InvalidArgumentCount
| TypeMismatch
| WriteOutsideTransaction
| StoreFailure (what : string).

(** [catch (std::out_of_range &)] *)
Definition is_out_of_range (e : exn) : bool :=
  match e with OutOfRange => true | _ => false end.

(** [catch (std::invalid_argument &)] *)
Definition is_invalid_argument (e : exn) : bool :=
  match e with NotAnIndexKey => true | _ => false end.

(** ** Host values and the list object *)

(** A row of the target table, as handed out by [List::get]. *)
Definition Row : Type := nat.

(** Modelled from the spec: the query objects of [parser.hpp] and
    [query_builder.hpp] are missing.  The list's logical query is "this
    collection, in its stored order"; evaluating it against a state of
    the link view gives that state's rows. *)
Inductive Query : Type :=
| QueryLinkView.

(** Modelled from the spec: the [Results] of [js_results.hpp] is missing.
    A view is a query with its live/static flag; a view created static
    holds the rows its query had when it was created. *)
Record Results : Type := mkResults {
  results_query : Query;
  results_live : bool;
  results_table_view : list Row
}.

(** The values a [JSValueRef] of this file can point to.  Numbers are
    the integral ones; a [JSValueRef] that is [NULL] is [None] of
    [option JSValue]. *)
#[warnings="-register-all"]
Inductive JSValue : Type :=
| JSUndefined                       (* JSValueMakeUndefined *)
| JSNumber (n : Z)                  (* JSValueMakeNumber *)
| JSString (s : string)
| JSRealmObject (row : Row)         (* RJSObjectCreate(ctx, Object(realm, schema, row)) *)
| JSArray (items : list JSValue)    (* JSObjectMakeArray *)
| JSResultsObject (r : Results)     (* RJSResultsCreate *)
| JSPlainObject (id : nat).         (* any other host object *)

(** Modelled from the spec: [realm::List] of [list.hpp] is missing.  The
    state the adapter can observe is the ordered collection of rows and
    whether the owning Realm is inside a write transaction. *)
Record List : Type := mkList {
  link_view : list Row;
  in_transaction : bool
}.

(** The state of a running call: the [List] behind [thisObject], the
    [returnObject] slot, which [LIST_METHOD] initialises to [NULL], and
    the host's exception slot behind [jsException], empty at entry.  The
    host always passes a slot, so the test [if (exceptionObject)] of
    [RJSSetException] is taken. *)
Record Frame : Type := mkFrame {
  this : List;
  returnObject : option JSValue;
  exceptionObject : option exn
}.

(** ** The monad of state and exceptions *)

Definition M (A : Type) : Type := Frame -> Frame * (exn + A).

Definition ret {A : Type} (a : A) : M A := fun f => (f, inr a).

Definition throw {A : Type} (e : exn) : M A := fun f => (f, inl e).

Definition bind {A B : Type} (m : M A) (k : A -> M B) : M B :=
  fun f =>
    match m f with
    | (f', inr a) => k a f'
    | (f', inl e) => (f', inl e)
    end.

Declare Scope cpp_scope.
Delimit Scope cpp_scope with cpp.
Notation "x <- m ;; k" := (bind m (fun x => k))
  (at level 100, m at next level, right associativity) : cpp_scope.
Notation "m ;; k" := (bind m (fun _ => k))
  (at level 100, right associativity) : cpp_scope.
Local Open Scope cpp_scope.

(** An exception or a value computed outside the state. *)
Definition lift {A : Type} (r : exn + A) : M A :=
  match r with
  | inl e => throw e
  | inr a => ret a
  end.

(** [try { body } catch (...) { handler }]: the handler runs in the
    state the body had reached when it threw. *)
Definition try_catch {A : Type} (body : M A) (handler : exn -> M A) : M A :=
  fun f =>
    match body f with
    | (f', inl e) => handler e f'
    | (f', inr a) => (f', inr a)
    end.

Definition get_list : M List := fun f => (f, inr (this f)).

(** The frame [f] with the rows of its list replaced. *)
Definition set_rows (f : Frame) (rows : list Row) : Frame :=
  mkFrame (mkList rows (in_transaction (this f))) (returnObject f) (exceptionObject f).

Definition put_link_view (rows : list Row) : M unit :=
  fun f => (set_rows f rows, inr tt).

(** [returnObject = v] *)
Definition set_returnObject (v : JSValue) : M unit :=
  fun f => (mkFrame (this f) (Some v) (exceptionObject f), inr tt).

Definition get_returnObject : M (option JSValue) :=
  fun f => (f, inr (returnObject f)).

(** What the host sees of a call: the list afterwards, what the entry
    point returned (or an exception that escaped it) and the exception
    slot. *)
Record Outcome (A : Type) : Type := mkOutcome {
  list_after : List;
  result : exn + A;
  jsException : option exn
}.
Arguments mkOutcome {A} _ _ _.
Arguments list_after {A} _.
Arguments result {A} _.
Arguments jsException {A} _.

(** A call of an entry point on the list [l]. *)
Definition invoke {A : Type} (m : M A) (l : List) : Outcome A :=
  match m (mkFrame l None None) with
  | (f, r) => mkOutcome (this f) r (exceptionObject f)
  end.

(** ** Helpers of [js_list.cpp] and [js_util.hpp] *)

(** [RJSSetReturnUndefined] *)
Definition RJSSetReturnUndefined : M unit := set_returnObject JSUndefined.

(** [RJSSetReturnNumber] *)
Definition RJSSetReturnNumber (number : Z) : M unit :=
  set_returnObject (JSNumber number).

(** [RJSSetReturnArray] *)
Definition RJSSetReturnArray (objects : list JSValue) : M unit :=
  set_returnObject (JSArray objects).

(** [RJSSetException]: [*exceptionObject = RJSMakeError(ctx, exception)] *)
Definition RJSSetException (exception : exn) : M unit :=
  fun f => (mkFrame (this f) (returnObject f) (Some exception), inr tt).

(** Modelled from the spec: [RJSValidateArgumentCount] of [js_util.hpp]
    is missing.  A call with another number of arguments than the
    expected one fails with [InvalidArgumentCount]. *)
Definition RJSValidateArgumentCount (argumentCount expected : Z) : M unit :=
  if argumentCount =? expected then ret tt else throw InvalidArgumentCount.

(** Modelled from the spec: [RJSValidateArgumentCountIsAtLeast] of
    [js_util.hpp] is missing.  A call with fewer arguments than the
    minimum fails with [InvalidArgumentCount]. *)
Definition RJSValidateArgumentCountIsAtLeast (argumentCount min : Z) : M unit :=
  if argumentCount <? min then throw InvalidArgumentCount else ret tt.

(** [RJSObjectCreate(ctx, Object(list->get_realm(), list->get_object_schema(), row))] *)
Definition RJSObjectCreate (row : Row) : JSValue := JSRealmObject row.

(** [argumentCount] of an argument array. *)
Definition argumentCount (arguments : list JSValue) : Z :=
  Z.of_nat (length arguments).

(** [arguments[i]], read only below [argumentCount]. *)
Definition argument (arguments : list JSValue) (i : nat) : JSValue :=
  default JSUndefined (arguments !! i).

(** ** Property keys *)

(** [sprintf(str, "%zu", i)]: the decimal digits of [i]. *)
Definition sprintf_zu (i : Z) : string :=
  NilZero.string_of_uint (N.to_uint (Z.to_N i)).

Definition is_digit (c : ascii) : bool :=
  ((48 <=? nat_of_ascii c) && (nat_of_ascii c <=? 57))%nat.

Definition is_nonzero_digit (c : ascii) : bool :=
  ((49 <=? nat_of_ascii c) && (nat_of_ascii c <=? 57))%nat.

Fixpoint all_digits (s : string) : bool :=
  match s with
  | EmptyString => true
  | String c rest => is_digit c && all_digits rest
  end.

(** Modelled from the spec: the keys that match the pattern of a
    canonical index, the single digit 0 or a digit from 1 to 9 followed
    by any number of digits from 0 to 9. *)
Definition matches_canonical_index (s : string) : bool :=
  match s with
  | EmptyString => false
  | String c rest =>
      (Ascii.eqb c "0" && String.eqb rest EmptyString)
      || (is_nonzero_digit c && all_digits rest)
  end.

Definition digit_value (c : ascii) : Z := Z.of_nat (nat_of_ascii c) - 48.

(** The value of a string of digits, most significant digit first. *)
Fixpoint decimal_value (acc : Z) (s : string) : Z :=
  match s with
  | EmptyString => acc
  | String c rest => decimal_value (10 * acc + digit_value c) rest
  end.

(** Modelled from the spec: [RJSValidatedPositiveIndex] of [js_util.hpp]
    is missing.  A key that matches the pattern of a canonical index is
    the index it denotes, parsed as the exact value; a key whose value
    overflows and any other key is not an index, which the parser
    reports by the [std::invalid_argument] that the property hooks
    absorb.  The handlers of the hooks name the conversion, [stol], so
    the values that do not overflow are those of [long]. *)
Definition RJSValidatedPositiveIndex (indexStr : string) : exn + Z :=
  if matches_canonical_index indexStr then
    let index := decimal_value 0 indexStr in
    if index <=? LONG_MAX then inr index else inl NotAnIndexKey
  else inl NotAnIndexKey.

(** The three classes of property keys. *)
Inductive KeyClass : Type :=
| Length
| Index (n : Z)
| NotAnIndex.

(** Modelled from the spec: the classification of a property key by the
    index codec, as the two property hooks perform it: the test for
    ["length"] first, the index parser otherwise. *)
Definition classify (key : string) : KeyClass :=
  if String.eqb key "length" then Length
  else
    match RJSValidatedPositiveIndex key with
    | inr n => Index n
    | inl _ => NotAnIndex
    end.

(** ** The primitives of [realm::List] *)

(** Modelled from the spec: [List::size] is missing; [size() -> int],
    the element count. *)
Definition size_of (l : List) : Z := Z.of_nat (length (link_view l)).

Definition List_size : M Z :=
  l <- get_list;; ret (size_of l).

(** Modelled from the spec: [List::verify_in_transaction] is missing.
    Without an active write transaction it fails with
    [WriteOutsideTransaction]. *)
Definition List_verify_in_transaction : M unit :=
  l <- get_list;;
  if in_transaction l then ret tt else throw WriteOutsideTransaction.

(** Modelled from the spec: [List::get] is missing.
    [get(index) -> Element] fails with [OutOfRange] if
    [index >= size()]. *)
Definition List_get (index : Z) : M Row :=
  l <- get_list;;
  size <- List_size;;
  if index <? size then
    match link_view l !! Z.to_nat index with
    | Some row => ret row
    | None => throw OutOfRange
    end
  else throw OutOfRange.

(** Modelled from the spec: [List::remove] is missing.  [remove(index)]
    fails with [OutOfRange] if [index >= size()] and with
    [WriteOutsideTransaction] without an active write transaction;
    otherwise it deletes the element at [index], and the elements after
    it shift down. *)
Definition List_remove (index : Z) : M unit :=
  l <- get_list;;
  size <- List_size;;
  if index <? size then
    List_verify_in_transaction;;
    put_link_view (delete (Z.to_nat index) (link_view l))
  else throw OutOfRange.

(** Modelled from the spec: [List::get_query] is missing;
    [current_query() -> LogicalQuery]. *)
Definition List_get_query : M Query := ret QueryLinkView.

(** Modelled from the spec: evaluation of a logical query against a
    state of the list. *)
Definition query_rows (q : Query) (l : List) : list Row :=
  match q with
  | QueryLinkView => link_view l
  end.

Section Marshaling.

(** Marshaling between host values and stored elements belongs to
    [object_accessor.hpp], which is missing; the conversion is a
    parameter of the development. *)

(** [NativeAccessor::to_object_index]: the row a host value stands for,
    or the exception of a value that the element schema rejects. *)
Variable to_object_index : JSValue -> exn + Row.

(** Modelled from the spec: [List::set] is missing.
    [set(index, value)] fails with [OutOfRange] if [index >= size()],
    with [WriteOutsideTransaction] without an active write transaction
    and with the marshaling failure of a value the schema rejects;
    otherwise it overwrites the element at [index]. *)
Definition List_set (value : JSValue) (index : Z) : M unit :=
  l <- get_list;;
  size <- List_size;;
  if index <? size then
    List_verify_in_transaction;;
    row <- lift (to_object_index value);;
    put_link_view (<[Z.to_nat index := row]> (link_view l))
  else throw OutOfRange.

(** Modelled from the spec: [List::add] is missing.  It needs an active
    write transaction and a value of the element schema, and appends
    the value at the end. *)
Definition List_add (value : JSValue) : M unit :=
  List_verify_in_transaction;;
  row <- lift (to_object_index value);;
  l <- get_list;;
  put_link_view (link_view l ++ [row]).

(** Modelled from the spec: [List::insert] is missing.
    [insert(value, index)] needs an active write transaction, an index
    of at most [size()] and a value of the element schema, and puts the
    value at [index]; the elements from [index] on shift up. *)
Definition List_insert (value : JSValue) (index : Z) : M unit :=
  List_verify_in_transaction;;
  l <- get_list;;
  size <- List_size;;
  if index <=? size then
    row <- lift (to_object_index value);;
    put_link_view (take (Z.to_nat index) (link_view l) ++ row :: drop (Z.to_nat index) (link_view l))
  else throw OutOfRange.

End Marshaling.

(** ** Views *)

(** Modelled from the spec: [RJSResultsCreate] of [js_results.hpp] is
    missing; [createView(store, schema, query, live) -> ViewHandle].  A
    static view is evaluated when it is created. *)
Definition RJSResultsCreate (query : Query) (live : bool) : M JSValue :=
  l <- get_list;;
  ret (JSResultsObject (mkResults query live (query_rows query l))).

(** Modelled from the spec: the rows of a view when the list is in the
    state [now].  A live view tracks the store; a static one keeps its
    membership and order. *)
Definition Results_rows (r : Results) (now : List) : list Row :=
  if results_live r then query_rows (results_query r) now
  else results_table_view r.

(** ** The entry points of [js_list.cpp] *)

Section EntryPoints.

Variable to_object_index : JSValue -> exn + Row.

(** [RJSValidatedValueToNumber] of [js_util.hpp], which is missing: the
    numeric value of a host value, or the exception of a value with
    none.  The value is any integral number; [ListSplice] converts it
    to [long] where it passes it to [std::min<long>] and
    [std::max<long>]. *)
Variable RJSValidatedValueToNumber : JSValue -> exn + Z.

Definition ListGetProperty (propertyName : string) : M (option JSValue) :=
  try_catch
    (let indexStr := propertyName in
     if String.eqb indexStr "length" then
       size <- List_size;;
       ret (Some (JSNumber size))
     else
       index <- lift (RJSValidatedPositiveIndex indexStr);;
       row <- List_get index;;
       ret (Some (RJSObjectCreate row)))
    (fun exp =>
       if is_out_of_range exp then
         (* getters for nonexistent properties in JS should always return undefined *)
         ret (Some JSUndefined)
       else if is_invalid_argument exp then
         (* this could be another property that is handled externally, so ignore *)
         ret None
       else
         RJSSetException exp;;
         ret None).

Definition ListSetProperty (propertyName : string) (value : JSValue) : M bool :=
  try_catch
    (let indexStr := propertyName in
     (if String.eqb indexStr "length" then throw ReadOnlyProperty else ret tt);;
     index <- lift (RJSValidatedPositiveIndex indexStr);;
     List_set to_object_index value index;;
     ret true)
    (fun exp =>
       if is_invalid_argument exp then
         ret false
       else
         RJSSetException exp;;
         ret false).

(** [for (size_t i = 0; i < size; i++)] of [ListPropertyNames], with
    [count] iterations left. *)
Fixpoint property_names_loop (count : nat) (i : Z) : list string :=
  match count with
  | O => []
  | S count' => sprintf_zu i :: property_names_loop count' (i + 1)
  end.

Definition ListPropertyNames (l : List) : list string :=
  let size := size_of l in
  property_names_loop (Z.to_nat size) 0.

(** [for (size_t i = 0; i < argumentCount; i++) list->add(ctx, arguments[i])] *)
Fixpoint push_loop (arguments : list JSValue) : M unit :=
  match arguments with
  | [] => ret tt
  | value :: rest => List_add to_object_index value;; push_loop rest
  end.

Definition ListPush (arguments : list JSValue) : M unit :=
  try_catch
    (RJSValidateArgumentCountIsAtLeast (argumentCount arguments) 1;;
     push_loop arguments;;
     size <- List_size;;
     RJSSetReturnNumber size)
    RJSSetException.

Definition ListPop (arguments : list JSValue) : M unit :=
  try_catch
    (RJSValidateArgumentCount (argumentCount arguments) 0;;
     size <- List_size;;
     if size =? 0 then
       List_verify_in_transaction;;
       RJSSetReturnUndefined
     else
       let index := size - 1 in
       row <- List_get index;;
       set_returnObject (RJSObjectCreate row);;
       List_remove index)
    RJSSetException.

(** [for (size_t i = 0; i < argumentCount; i++) list->insert(ctx, arguments[i], i)],
    from [i] on. *)
Fixpoint unshift_loop (arguments : list JSValue) (i : Z) : M unit :=
  match arguments with
  | [] => ret tt
  | value :: rest => List_insert to_object_index value i;; unshift_loop rest (i + 1)
  end.

Definition ListUnshift (arguments : list JSValue) : M unit :=
  try_catch
    (RJSValidateArgumentCountIsAtLeast (argumentCount arguments) 1;;
     unshift_loop arguments 0;;
     size <- List_size;;
     RJSSetReturnNumber size)
    RJSSetException.

Definition ListShift (arguments : list JSValue) : M unit :=
  try_catch
    (RJSValidateArgumentCount (argumentCount arguments) 0;;
     size <- List_size;;
     if size =? 0 then
       List_verify_in_transaction;;
       RJSSetReturnUndefined
     else
       row <- List_get 0;;
       set_returnObject (RJSObjectCreate row);;
       List_remove 0)
    RJSSetException.

(** The removal loop of [ListSplice], with [count] iterations left:
    [removedObjects[i] = RJSObjectCreate(..., list->get(index)); list->remove(index);] *)
Fixpoint splice_remove_loop (count : nat) (index : Z) (removedObjects : list JSValue)
  : M (list JSValue) :=
  match count with
  | O => ret removedObjects
  | S count' =>
      row <- List_get (to_size_t index);;
      List_remove (to_size_t index);;
      splice_remove_loop count' index (removedObjects ++ [RJSObjectCreate row])
  end.

(** The insertion loop of [ListSplice], from [i] on:
    [list->insert(ctx, arguments[i], index + i - 2)] *)
Fixpoint splice_insert_loop (arguments : list JSValue) (i : Z) (index : Z) : M unit :=
  match arguments with
  | [] => ret tt
  | value :: rest =>
      List_insert to_object_index value (to_size_t (to_size_t index + i - 2));;
      splice_insert_loop rest (i + 1) index
  end.

Definition ListSplice (arguments : list JSValue) : M unit :=
  try_catch
    (size <- List_size;;
     RJSValidateArgumentCountIsAtLeast (argumentCount arguments) 1;;
     number <- lift (RJSValidatedValueToNumber (argument arguments 0));;
     let index := Z.min (double_to_long number) (to_long size) in
     let index :=
       if index <? 0 then Z.max (to_long (to_size_t (size + to_size_t index))) 0
       else index in
     remove <-
       (if argumentCount arguments <? 2 then
          ret (to_long (to_size_t (size - to_size_t index)))
        else
          number <- lift (RJSValidatedValueToNumber (argument arguments 1));;
          let remove := Z.max (double_to_long number) 0 in
          ret (Z.min remove (to_long (to_size_t (size - to_size_t index)))));;
     removedObjects <- splice_remove_loop (Z.to_nat (to_size_t remove)) index [];;
     splice_insert_loop (drop 2 arguments) 2 index;;
     RJSSetReturnArray removedObjects)
    RJSSetException.

Definition ListStaticResults (arguments : list JSValue) : M unit :=
  try_catch
    (RJSValidateArgumentCount (argumentCount arguments) 0;;
     query <- List_get_query;;
     results <- RJSResultsCreate query false;;
     set_returnObject results)
    RJSSetException.

(** [LIST_METHOD]: the host callback of a method. *)
Definition LIST_METHOD (METHOD_NAME : list JSValue -> M unit) (arguments : list JSValue)
  : M (option JSValue) :=
  METHOD_NAME arguments;;
  get_returnObject.

End EntryPoints.

(** A marshaling used to run the model on concrete calls: the wrapper of
    a Realm object stands for its row, a number for its value, and any
    other value is rejected. *)
Definition object_index_of (value : JSValue) : exn + Row :=
  match value with
  | JSRealmObject row => inr row
  | _ => inl TypeMismatch
  end.

Definition number_of (value : JSValue) : exn + Z :=
  match value with
  | JSNumber n => inr n
  | _ => inl TypeMismatch
  end.

(** The start and the delete count of [splice], in the words of the
    specification. *)

(** [start]: [min(numeric(arg0), size)], renormalised to
    [max(size + start, 0)] when negative. *)
Definition splice_start (size number : Z) : Z :=
  let start := Z.min number size in
  if start <? 0 then Z.max (size + start) 0 else start.

Definition clamp (x lo hi : Z) : Z := Z.min (Z.max x lo) hi.

(** [deleteCount]: [size - start] without a second argument, otherwise
    [clamp(numeric(arg1), 0, size - start)]. *)
Definition splice_deleteCount (size start : Z) (arg1 : option Z) : Z :=
  match arg1 with
  | None => size - start
  | Some number => clamp number 0 (size - start)
  end.

(** The rows that a sequence of host values stands for under a
    marshaling. *)
Definition marshals (to_object_index : JSValue -> exn + Row)
  (values : list JSValue) (rows : list Row) : Prop :=
  Forall2 (fun value row => to_object_index value = inr row) values rows.

(** The values of [long]. *)
Definition in_long (z : Z) : Prop := LONG_MIN <= z <= LONG_MAX.

(** The second argument of a call of [splice], when there is one: its
    numeric value, within [long]. *)
Definition second_argument (RJSValidatedValueToNumber : JSValue -> exn + Z)
  (arguments : list JSValue) (arg1 : option Z) : Prop :=
  match arg1 with
  | None => argumentCount arguments < 2
  | Some number =>
      2 <= argumentCount arguments
      /\ RJSValidatedValueToNumber (argument arguments 1) = inr number
      /\ in_long number
  end.

(** ** The query methods and the method table *)

(** Modelled from the spec: [RJSValidateArgumentRange] of [js_util.hpp]
    is missing.  A call with fewer arguments than the minimum or more
    than the maximum fails with [InvalidArgumentCount]. *)
Definition RJSValidateArgumentRange (argumentCount min max : Z) : M unit :=
  if (argumentCount <? min) || (max <? argumentCount)
  then throw InvalidArgumentCount
  else ret tt.

Section QueryMethods.

(** [RJSResultsCreateFiltered] and [RJSResultsCreateSorted] belong to
    [js_results.hpp], which is missing, and to the query parser behind
    it; they are parameters.  Each receives the list's query and the
    arguments of the call and gives the view object or the exception of
    arguments it rejects. *)
Variable RJSResultsCreateFiltered : Query -> list JSValue -> exn + JSValue.
Variable RJSResultsCreateSorted : Query -> list JSValue -> exn + JSValue.

Definition ListFiltered (arguments : list JSValue) : M unit :=
  try_catch
    (RJSValidateArgumentCountIsAtLeast (argumentCount arguments) 1;;
     query <- List_get_query;;
     results <- lift (RJSResultsCreateFiltered query arguments);;
     set_returnObject results)
    RJSSetException.

Definition ListSorted (arguments : list JSValue) : M unit :=
  try_catch
    (RJSValidateArgumentRange (argumentCount arguments) 1 2;;
     query <- List_get_query;;
     results <- lift (RJSResultsCreateSorted query arguments);;
     set_returnObject results)
    RJSSetException.

Variable to_object_index : JSValue -> exn + Row.
Variable RJSValidatedValueToNumber : JSValue -> exn + Z.

(** [RJSListFuncs]: the static functions of the list class, by name. *)
Definition RJSListFuncs : list (string * (list JSValue -> M (option JSValue))) :=
  [ ("push"%string, LIST_METHOD (ListPush to_object_index));
    ("pop"%string, LIST_METHOD ListPop);
    ("shift"%string, LIST_METHOD ListShift);
    ("unshift"%string, LIST_METHOD (ListUnshift to_object_index));
    ("splice"%string, LIST_METHOD (ListSplice to_object_index RJSValidatedValueToNumber));
    ("filtered"%string, LIST_METHOD ListFiltered);
    ("sorted"%string, LIST_METHOD ListSorted);
    ("snapshot"%string, LIST_METHOD ListStaticResults) ].

End QueryMethods.

(** A computation that, started without a write transaction, ends with
    the list it started with. *)
Definition keeps_list {A : Type} (m : M A) : Prop :=
  forall (f f' : Frame) (r : exn + A),
    in_transaction (this f) = false -> m f = (f', r) -> this f' = this f.

(** * Properties *)

(** ** Integer conversions *)

Lemma LONG_MAX_lt_SIZE_MODULUS : LONG_MAX < SIZE_MODULUS.
Proof. reflexivity. Qed.

Lemma to_size_t_id z : 0 <= z < SIZE_MODULUS -> to_size_t z = z.
Proof. intros H. unfold to_size_t. apply Z.mod_small. exact H. Qed.

Lemma to_long_small z : in_long z -> to_long z = z.
Proof.
  unfold in_long, to_long, SIZE_MODULUS, LONG_MAX, LONG_MIN. intros H.
  rewrite Z.mod_small; lia.
Qed.

Lemma double_to_long_in_long number : in_long number -> double_to_long number = number.
Proof.
  unfold in_long, double_to_long. intros [Hmin Hmax].
  destruct (Z.leb_spec LONG_MIN number); [|lia].
  destruct (Z.leb_spec number LONG_MAX); [reflexivity|lia].
Qed.

(** A negative [long] converted to [size_t] and added to a size wraps
    around to their sum. *)
Lemma to_long_size_plus_negative size index :
  0 <= size <= LONG_MAX -> LONG_MIN <= index < 0 ->
  to_long (to_size_t (size + to_size_t index)) = size + index.
Proof.
  unfold to_long, to_size_t, SIZE_MODULUS, LONG_MAX, LONG_MIN. intros Hs Hi.
  replace (index mod 2 ^ 64) with (index + 2 ^ 64).
  2:{ apply Z.mod_unique with (q := -1); lia. }
  rewrite Zminus_mod_idemp_l.
  replace (size + (index + 2 ^ 64) - - 2 ^ 63) with (size + index + 2 ^ 63 + 1 * 2 ^ 64) by lia.
  rewrite Z_mod_plus_full. rewrite Z.mod_small; lia.
Qed.

Lemma splice_start_range size number :
  0 <= size -> 0 <= splice_start size number <= size.
Proof.
  unfold splice_start. intros Hs.
  destruct (Z.ltb_spec (Z.min number size) 0); lia.
Qed.

Lemma splice_deleteCount_range size start arg1 :
  0 <= start <= size ->
  0 <= splice_deleteCount size start arg1 <= size - start.
Proof.
  unfold splice_deleteCount, clamp. intros Hs. destruct arg1; lia.
Qed.

(** ** Runs of the primitives *)

Lemma set_rows_same f : set_rows f (link_view (this f)) = f.
Proof. destruct f as [[rows tx] r e]. reflexivity. Qed.

Lemma set_rows_twice f rows rows' : set_rows (set_rows f rows) rows' = set_rows f rows'.
Proof. reflexivity. Qed.

Lemma List_get_run f index row :
  0 <= index ->
  link_view (this f) !! Z.to_nat index = Some row ->
  List_get index f = (f, inr row).
Proof.
  intros Hi Hrow.
  unfold List_get, List_size, bind, get_list, ret, size_of. simpl.
  apply lookup_lt_Some in Hrow as Hlt.
  destruct (Z.ltb_spec index (Z.of_nat (length (link_view (this f))))) as [_|Hge]; [|lia].
  rewrite Hrow. reflexivity.
Qed.

Lemma List_get_out_of_range f index :
  size_of (this f) <= index ->
  List_get index f = (f, inl OutOfRange).
Proof.
  intros Hi.
  unfold List_get, List_size, bind, get_list, ret, throw. simpl.
  destruct (Z.ltb_spec index (size_of (this f))); [lia|reflexivity].
Qed.

Lemma List_remove_run f index :
  in_transaction (this f) = true ->
  0 <= index < size_of (this f) ->
  List_remove index f
  = (set_rows f (delete (Z.to_nat index) (link_view (this f))), inr tt).
Proof.
  intros Htx Hi.
  unfold List_remove, List_size, List_verify_in_transaction, bind, get_list, ret,
    put_link_view. simpl.
  destruct (Z.ltb_spec index (size_of (this f))); [|lia].
  rewrite Htx. reflexivity.
Qed.

(** A primitive that throws leaves the frame as it was. *)
Lemma List_remove_throws f index f' e :
  List_remove index f = (f', inl e) -> f' = f.
Proof.
  unfold List_remove, List_size, List_verify_in_transaction, bind, get_list, ret,
    throw, put_link_view. simpl.
  destruct (index <? size_of (this f)); [|congruence].
  destruct (in_transaction (this f)); simpl; congruence.
Qed.

Lemma List_verify_in_transaction_frame f f' r :
  List_verify_in_transaction f = (f', r) -> f' = f.
Proof.
  unfold List_verify_in_transaction, bind, get_list, ret, throw. simpl.
  destruct (in_transaction (this f)); congruence.
Qed.

Section PrimitiveRuns.

Variable to_object_index : JSValue -> exn + Row.

Lemma List_add_run f value row :
  in_transaction (this f) = true ->
  to_object_index value = inr row ->
  List_add to_object_index value f
  = (set_rows f (link_view (this f) ++ [row]), inr tt).
Proof.
  intros Htx Hrow.
  unfold List_add, List_verify_in_transaction, bind, get_list, ret, lift,
    put_link_view. simpl.
  rewrite Htx, Hrow. reflexivity.
Qed.

Lemma List_insert_run f value index row :
  in_transaction (this f) = true ->
  0 <= index <= size_of (this f) ->
  to_object_index value = inr row ->
  List_insert to_object_index value index f
  = (set_rows f (take (Z.to_nat index) (link_view (this f))
                 ++ row :: drop (Z.to_nat index) (link_view (this f))), inr tt).
Proof.
  intros Htx Hi Hrow.
  unfold List_insert, List_size, List_verify_in_transaction, bind, get_list, ret,
    lift, put_link_view. simpl.
  rewrite Htx.
  destruct (Z.leb_spec index (size_of (this f))); [|lia].
  rewrite Hrow. reflexivity.
Qed.

Lemma List_set_out_of_range f value index :
  size_of (this f) <= index ->
  List_set to_object_index value index f = (f, inl OutOfRange).
Proof.
  intros Hi.
  unfold List_set, List_size, bind, get_list, ret, throw. simpl.
  destruct (Z.ltb_spec index (size_of (this f))); [lia|reflexivity].
Qed.

Lemma List_set_run f value index row :
  in_transaction (this f) = true ->
  0 <= index < size_of (this f) ->
  to_object_index value = inr row ->
  List_set to_object_index value index f
  = (set_rows f (<[Z.to_nat index := row]> (link_view (this f))), inr tt).
Proof.
  intros Htx Hi Hrow.
  unfold List_set, List_size, List_verify_in_transaction, bind, get_list, ret,
    lift, put_link_view. simpl.
  destruct (Z.ltb_spec index (size_of (this f))); [|lia].
  rewrite Htx, Hrow. reflexivity.
Qed.

(** ** Runs of the loops *)

Lemma push_loop_run arguments rows :
  marshals to_object_index arguments rows ->
  forall f, in_transaction (this f) = true ->
  push_loop to_object_index arguments f
  = (set_rows f (link_view (this f) ++ rows), inr tt).
Proof.
  induction 1 as [|value row arguments rows Hrow _ IH]; intros f Htx; simpl.
  - rewrite app_nil_r, set_rows_same. reflexivity.
  - unfold bind. rewrite (List_add_run f value row Htx Hrow).
    rewrite IH by exact Htx. simpl.
    rewrite set_rows_twice, <- app_assoc. reflexivity.
Qed.

Lemma unshift_loop_run arguments rows :
  marshals to_object_index arguments rows ->
  forall f front prior,
  in_transaction (this f) = true ->
  link_view (this f) = front ++ prior ->
  unshift_loop to_object_index arguments (Z.of_nat (length front)) f
  = (set_rows f (front ++ rows ++ prior), inr tt).
Proof.
  induction 1 as [|value row arguments rows Hrow _ IH]; intros f front prior Htx Hrows; simpl.
  - rewrite <- Hrows, set_rows_same. reflexivity.
  - unfold bind. rewrite (List_insert_run f value _ row Htx); [|
      unfold size_of; rewrite Hrows, length_app; lia | exact Hrow].
    rewrite Nat2Z.id, Hrows, take_app_length, drop_app_length.
    replace (Z.of_nat (length front) + 1) with (Z.of_nat (length (front ++ [row])))
      by (rewrite length_app; simpl; lia).
    rewrite (IH _ (front ++ [row]) prior);
      [| exact Htx | simpl; rewrite <- app_assoc; reflexivity].
    rewrite set_rows_twice, <- app_assoc. reflexivity.
Qed.

Lemma splice_remove_loop_run count :
  forall f index removedObjects,
  in_transaction (this f) = true ->
  0 <= index ->
  index + Z.of_nat count <= size_of (this f) ->
  size_of (this f) <= LONG_MAX ->
  splice_remove_loop count index removedObjects f
  = (set_rows f (take (Z.to_nat index) (link_view (this f))
                 ++ drop (Z.to_nat index + count) (link_view (this f))),
     inr (removedObjects
          ++ (RJSObjectCreate <$> take count (drop (Z.to_nat index) (link_view (this f)))))).
Proof.
  induction count as [|count IH]; intros f index removedObjects Htx Hi Hcount Hmax; simpl.
  - rewrite Nat.add_0_r, take_drop, set_rows_same. simpl.
    rewrite app_nil_r. reflexivity.
  - pose proof LONG_MAX_lt_SIZE_MODULUS as Hmod.
    rewrite to_size_t_id by lia.
    unfold size_of in Hcount, Hmax.
    destruct (lookup_lt_is_Some_2 (link_view (this f)) (Z.to_nat index)) as [row Hrow]; [lia|].
    unfold bind. rewrite (List_get_run f index row Hi Hrow).
    rewrite (List_remove_run f index Htx) by (unfold size_of; lia).
    rewrite IH; simpl; [| exact Htx | exact Hi
      | unfold size_of; simpl; rewrite length_delete by (exists row; exact Hrow); lia
      | unfold size_of; simpl; rewrite length_delete by (exists row; exact Hrow); lia ].
    rewrite set_rows_twice.
    rewrite delete_take_drop.
    rewrite take_app_le, take_take by (rewrite length_take; lia).
    rewrite Nat.min_id.
    rewrite !drop_app_ge by (rewrite length_take; lia).
    rewrite !length_take_le by lia.
    rewrite drop_drop.
    replace (Z.to_nat index - Z.to_nat index)%nat with 0%nat by lia.
    replace (Z.to_nat index + count - Z.to_nat index)%nat with count by lia.
    rewrite drop_0.
    rewrite (drop_S _ _ _ Hrow). simpl.
    rewrite <- app_assoc. simpl.
    replace (Z.to_nat index + S count)%nat with (S (Z.to_nat index + count)) by lia.
    reflexivity.
Qed.

End PrimitiveRuns.

Section SpliceInsert.

Variable to_object_index : JSValue -> exn + Row.

Lemma splice_insert_loop_run arguments rows :
  marshals to_object_index arguments rows ->
  forall f i index front rest,
  in_transaction (this f) = true ->
  link_view (this f) = front ++ rest ->
  0 <= index <= LONG_MAX ->
  index + i - 2 = Z.of_nat (length front) ->
  Z.of_nat (length front) + Z.of_nat (length arguments) <= LONG_MAX ->
  splice_insert_loop to_object_index arguments i index f
  = (set_rows f (front ++ rows ++ rest), inr tt).
Proof.
  pose proof LONG_MAX_lt_SIZE_MODULUS as Hmod.
  induction 1 as [|value row arguments rows Hrow _ IH];
    intros f i index front rest Htx Hrows Hindex Hi Hmax; simpl.
  - rewrite <- Hrows, set_rows_same. reflexivity.
  - simpl in Hmax.
    rewrite (to_size_t_id index) by lia.
    rewrite to_size_t_id by lia.
    unfold bind. rewrite (List_insert_run _ f value _ row Htx); [|
      unfold size_of; rewrite Hrows, length_app; lia | exact Hrow].
    rewrite Hi, Nat2Z.id, Hrows, take_app_length, drop_app_length.
    rewrite (IH _ (i + 1) index (front ++ [row]) rest);
      [| exact Htx | simpl; rewrite <- app_assoc; reflexivity | exact Hindex
       | rewrite length_app; simpl; lia | rewrite length_app; simpl; lia ].
    rewrite set_rows_twice, <- app_assoc. reflexivity.
Qed.

End SpliceInsert.

(** ** Runs of the control structure *)

Lemma bind_run {A B : Type} (m : M A) (k : A -> M B) f f' a :
  m f = (f', inr a) -> bind m k f = k a f'.
Proof. intros H. unfold bind. rewrite H. reflexivity. Qed.

Lemma bind_throws {A B : Type} (m : M A) (k : A -> M B) f f' e :
  m f = (f', inl e) -> bind m k f = (f', inl e).
Proof. intros H. unfold bind. rewrite H. reflexivity. Qed.

Lemma try_catch_run {A : Type} (body : M A) handler f f' a :
  body f = (f', inr a) -> try_catch body handler f = (f', inr a).
Proof. intros H. unfold try_catch. rewrite H. reflexivity. Qed.

Lemma try_catch_throws {A : Type} (body : M A) handler f f' e :
  body f = (f', inl e) -> try_catch body handler f = handler e f'.
Proof. intros H. unfold try_catch. rewrite H. reflexivity. Qed.

Lemma List_remove_exception_slot f index f' r :
  List_remove index f = (f', r) -> exceptionObject f' = exceptionObject f.
Proof.
  unfold List_remove, List_size, List_verify_in_transaction, bind, get_list, ret,
    throw, put_link_view. simpl.
  destruct (index <? size_of (this f)); [|congruence].
  destruct (in_transaction (this f)); simpl; intros [= <- _]; reflexivity.
Qed.

Lemma List_get_frame f index f' r :
  List_get index f = (f', r) -> f' = f.
Proof.
  unfold List_get, List_size, bind, get_list, ret, throw. simpl.
  destruct (index <? size_of (this f)); [|congruence].
  destruct (link_view (this f) !! Z.to_nat index); congruence.
Qed.

(** ** The mutating methods *)

Section Mutations.

Variable to_object_index : JSValue -> exn + Row.
Variable RJSValidatedValueToNumber : JSValue -> exn + Z.

Lemma ListPush_run (l : List) (v : list JSValue) (rows : list Row) :
  in_transaction l = true ->
  v <> [] ->
  marshals to_object_index v rows ->
  invoke (LIST_METHOD (ListPush to_object_index) v) l
  = mkOutcome (mkList (link_view l ++ rows) true)
              (inr (Some (JSNumber (size_of l + Z.of_nat (length v))))) None.
Proof.
  intros Htx Hv Hrows.
  unfold invoke, LIST_METHOD, ListPush, try_catch, bind,
    RJSValidateArgumentCountIsAtLeast, argumentCount.
  destruct (Z.ltb_spec (Z.of_nat (length v)) 1) as [Hlt|_].
  { destruct v; [congruence | simpl in Hlt; lia]. }
  unfold ret at 1.
  rewrite (push_loop_run _ v rows Hrows) by exact Htx.
  simpl. unfold size_of. simpl. rewrite Htx, length_app.
  rewrite <- (Forall2_length _ _ _ Hrows).
  rewrite Nat2Z.inj_add. reflexivity.
Qed.

(** C6: [push(v)] with a non-empty [v], inside a write transaction and
    with values of the element schema, appends the values in input
    order, so that [get(size_before + i)] is [v[i]], and returns
    [size_before + len(v)]; with no argument it fails with
    [InvalidArgumentCount]. *)
Theorem ListPush_appends_in_order :
  (forall (l : List) (v : list JSValue) (rows : list Row),
      in_transaction l = true ->
      v <> [] ->
      marshals to_object_index v rows ->
      let after := mkList (link_view l ++ rows) true in
      invoke (LIST_METHOD (ListPush to_object_index) v) l
      = mkOutcome after (inr (Some (JSNumber (size_of l + Z.of_nat (length v))))) None
      /\ forall (i : nat) (value : JSValue),
           v !! i = Some value ->
           exists row,
             to_object_index value = inr row
             /\ invoke (List_get (size_of l + Z.of_nat i)) after
                = mkOutcome after (inr row) None)
  /\ (forall l : List,
        invoke (LIST_METHOD (ListPush to_object_index) []) l
        = mkOutcome l (inr None) (Some InvalidArgumentCount)).
Proof.
  split.
  - intros l v rows Htx Hv Hrows after. split.
    + apply ListPush_run; assumption.
    + intros i value Hi.
      destruct (Forall2_lookup_l _ _ _ _ _ Hrows Hi) as (row & Hrow & Hconv).
      exists row. split; [exact Hconv|].
      unfold invoke. rewrite (List_get_run _ _ row).
      * reflexivity.
      * unfold size_of. lia.
      * simpl. unfold size_of.
        replace (Z.to_nat (Z.of_nat (length (link_view l)) + Z.of_nat i))
          with (length (link_view l) + i)%nat by lia.
        rewrite lookup_app_r by lia.
        replace (length (link_view l) + i - length (link_view l))%nat with i by lia.
        exact Hrow.
  - intros l. destruct l as [rows tx]. reflexivity.
Qed.


(** C5: [unshift(values)] with [n >= 1] values, inside a write
    transaction and with values of the element schema, inserts
    [values[i]] at position [i] for [i = 0..n-1], so that the list ends
    as the values in their order followed by the prior contents, and
    returns [len(P) + n]; with no argument it fails with
    [InvalidArgumentCount]; [unshift([x, y])] on [[a, b]] gives
    [[x, y, a, b]] and returns 4. *)
Theorem ListUnshift_prepends_in_order :
  (forall (l : List) (values : list JSValue) (rows : list Row),
      in_transaction l = true ->
      values <> [] ->
      marshals to_object_index values rows ->
      (forall k : nat,
          unshift_loop to_object_index (take k values) 0 (mkFrame l None None)
          = (mkFrame (mkList (take k rows ++ link_view l) true) None None, inr tt))
      /\ invoke (LIST_METHOD (ListUnshift to_object_index) values) l
         = mkOutcome (mkList (rows ++ link_view l) true)
                     (inr (Some (JSNumber (size_of l + Z.of_nat (length values))))) None)
  /\ (forall l : List,
        invoke (LIST_METHOD (ListUnshift to_object_index) []) l
        = mkOutcome l (inr None) (Some InvalidArgumentCount))
  /\ (forall (x y : JSValue) (rx ry a b : Row),
        to_object_index x = inr rx ->
        to_object_index y = inr ry ->
        invoke (LIST_METHOD (ListUnshift to_object_index) [x; y]) (mkList [a; b] true)
        = mkOutcome (mkList [rx; ry; a; b] true) (inr (Some (JSNumber 4))) None).
Proof.
  assert (Hrun : forall (l : List) (values : list JSValue) (rows : list Row),
      in_transaction l = true ->
      marshals to_object_index values rows ->
      unshift_loop to_object_index values 0 (mkFrame l None None)
      = (mkFrame (mkList (rows ++ link_view l) true) None None, inr tt)).
  { intros l values rows Htx Hrows.
    change 0 with (Z.of_nat (length (@nil Row))).
    rewrite (unshift_loop_run _ values rows Hrows (mkFrame l None None) []
               (link_view l) Htx eq_refl).
    unfold set_rows. simpl. rewrite Htx. reflexivity. }
  assert (Hcall : forall (l : List) (values : list JSValue) (rows : list Row),
      in_transaction l = true ->
      values <> [] ->
      marshals to_object_index values rows ->
      invoke (LIST_METHOD (ListUnshift to_object_index) values) l
      = mkOutcome (mkList (rows ++ link_view l) true)
                  (inr (Some (JSNumber (size_of l + Z.of_nat (length values))))) None).
  { intros l values rows Htx Hv Hrows.
    unfold invoke, LIST_METHOD, ListUnshift, try_catch, bind,
      RJSValidateArgumentCountIsAtLeast, argumentCount.
    destruct (Z.ltb_spec (Z.of_nat (length values)) 1) as [Hlt|_].
    { destruct values; [congruence | simpl in Hlt; lia]. }
    unfold ret at 1.
    rewrite (Hrun l values rows Htx Hrows).
    simpl. unfold size_of. simpl. rewrite length_app.
    rewrite <- (Forall2_length _ _ _ Hrows).
    rewrite Nat2Z.inj_add, Z.add_comm. reflexivity. }
  split; [|split].
  - intros l values rows Htx Hv Hrows. split.
    + intros k. apply Hrun; [exact Htx|].
      apply Forall2_take. exact Hrows.
    + apply Hcall; assumption.
  - intros l. destruct l as [rows tx]. reflexivity.
  - intros x y rx ry a b Hx Hy.
    apply (Hcall (mkList [a; b] true) [x; y] [rx; ry]); [reflexivity | discriminate |].
    repeat constructor; assumption.
Qed.

(** C4: [pop()] and [shift()] take no argument and fail with
    [InvalidArgumentCount] otherwise.  On an empty list each checks the
    write transaction, failing with [WriteOutsideTransaction] without
    one, and returns undefined.  On a non-empty list inside a write
    transaction [pop()] returns and removes the element at index
    [size - 1], [shift()] the element at index 0, and the size goes down
    by exactly 1. *)
Theorem ListPop_ListShift_contract :
  (forall (l : List) (arguments : list JSValue),
      arguments <> [] ->
      invoke (LIST_METHOD ListPop arguments) l
      = mkOutcome l (inr None) (Some InvalidArgumentCount)
      /\ invoke (LIST_METHOD ListShift arguments) l
         = mkOutcome l (inr None) (Some InvalidArgumentCount))
  /\ (forall l : List,
        size_of l = 0 ->
        in_transaction l = false ->
        invoke (LIST_METHOD ListPop []) l
        = mkOutcome l (inr None) (Some WriteOutsideTransaction)
        /\ invoke (LIST_METHOD ListShift []) l
           = mkOutcome l (inr None) (Some WriteOutsideTransaction))
  /\ (forall l : List,
        size_of l = 0 ->
        in_transaction l = true ->
        invoke (LIST_METHOD ListPop []) l = mkOutcome l (inr (Some JSUndefined)) None
        /\ invoke (LIST_METHOD ListShift []) l = mkOutcome l (inr (Some JSUndefined)) None)
  /\ (forall l : List,
        size_of l <> 0 ->
        in_transaction l = true ->
        (exists last : Row,
            link_view l !! Z.to_nat (size_of l - 1) = Some last
            /\ invoke (LIST_METHOD ListPop []) l
               = mkOutcome (mkList (delete (Z.to_nat (size_of l - 1)) (link_view l)) true)
                           (inr (Some (RJSObjectCreate last))) None
            /\ size_of (list_after (invoke (LIST_METHOD ListPop []) l)) = size_of l - 1)
        /\ (exists first : Row,
               link_view l !! 0%nat = Some first
               /\ invoke (LIST_METHOD ListShift []) l
                  = mkOutcome (mkList (delete 0%nat (link_view l)) true)
                              (inr (Some (RJSObjectCreate first))) None
               /\ size_of (list_after (invoke (LIST_METHOD ListShift []) l)) = size_of l - 1)).
Proof.
  split; [|split; [|split]].
  - intros [rows tx] [|a arguments] Hargs; [congruence|].
    unfold invoke, LIST_METHOD, ListPop, ListShift, try_catch, bind,
      RJSValidateArgumentCount, argumentCount.
    destruct (Z.eqb_spec (Z.of_nat (length (a :: arguments))) 0) as [H0|_];
      [simpl in H0; lia|].
    split; reflexivity.
  - intros [rows tx] Hsize Htx. simpl in Htx. subst tx.
    destruct rows; [|unfold size_of in Hsize; simpl in Hsize; lia].
    split; reflexivity.
  - intros [rows tx] Hsize Htx. simpl in Htx. subst tx.
    destruct rows; [|unfold size_of in Hsize; simpl in Hsize; lia].
    split; reflexivity.
  - intros [rows tx] Hsize Htx. simpl in Htx. subst tx.
    unfold size_of in *. simpl in *.
    assert (Hlen : (0 < length rows)%nat) by lia.
    split.
    + destruct (lookup_lt_is_Some_2 rows (Z.to_nat (Z.of_nat (length rows) - 1))) as [last Hlast];
        [lia|].
      exists last. split; [exact Hlast|].
      assert (Hcall : invoke (LIST_METHOD ListPop []) (mkList rows true)
          = mkOutcome (mkList (delete (Z.to_nat (Z.of_nat (length rows) - 1)) rows) true)
                      (inr (Some (RJSObjectCreate last))) None).
      { unfold invoke, LIST_METHOD, ListPop, try_catch.
        unfold bind at 1 2 3. simpl. unfold size_of. simpl.
        destruct (Z.eqb_spec (Z.of_nat (length rows)) 0) as [H0|_]; [lia|].
        unfold bind at 1.
        rewrite (List_get_run _ _ last); [| lia | exact Hlast].
        unfold bind, set_returnObject. simpl.
        rewrite List_remove_run; [| reflexivity | unfold size_of; simpl; lia].
        reflexivity. }
      split; [exact Hcall|].
      rewrite Hcall. simpl.
      rewrite length_delete by (exists last; exact Hlast). lia.
    + destruct (lookup_lt_is_Some_2 rows 0%nat) as [first Hfirst]; [lia|].
      exists first. split; [exact Hfirst|].
      assert (Hcall : invoke (LIST_METHOD ListShift []) (mkList rows true)
          = mkOutcome (mkList (delete 0%nat rows) true)
                      (inr (Some (RJSObjectCreate first))) None).
      { unfold invoke, LIST_METHOD, ListShift, try_catch.
        unfold bind at 1 2 3. simpl. unfold size_of. simpl.
        destruct (Z.eqb_spec (Z.of_nat (length rows)) 0) as [H0|_]; [lia|].
        unfold bind at 1.
        rewrite (List_get_run _ _ first); [| lia | exact Hfirst].
        unfold bind, set_returnObject. simpl.
        rewrite List_remove_run; [| reflexivity | unfold size_of; simpl; lia].
        reflexivity. }
      split; [exact Hcall|].
      rewrite Hcall. simpl.
      rewrite length_delete by (exists first; exact Hfirst). lia.
Qed.


(** C10: an error of [pop()] or [shift()] leaves the list as it was:
    with an exception in the host's slot, the list after the call is the
    list before it.  The element is read before the removal, the only
    primitive that changes the state: without a write transaction a
    non-empty list keeps its rows although the wrapper has been built. *)
Theorem ListPop_ListShift_error_leaves_list :
  (forall (l : List) (arguments : list JSValue) (e : exn),
      (jsException (invoke (LIST_METHOD ListPop arguments) l) = Some e ->
       list_after (invoke (LIST_METHOD ListPop arguments) l) = l)
      /\ (jsException (invoke (LIST_METHOD ListShift arguments) l) = Some e ->
          list_after (invoke (LIST_METHOD ListShift arguments) l) = l))
  /\ (forall (l : List) (first last : Row),
        in_transaction l = false ->
        link_view l !! 0%nat = Some first ->
        link_view l !! Z.to_nat (size_of l - 1) = Some last ->
        invoke (LIST_METHOD ListPop []) l
        = mkOutcome l (inr (Some (RJSObjectCreate last))) (Some WriteOutsideTransaction)
        /\ invoke (LIST_METHOD ListShift []) l
           = mkOutcome l (inr (Some (RJSObjectCreate first))) (Some WriteOutsideTransaction)).
Proof.
  split.
  - intros l arguments e. split.
    + remember (invoke (LIST_METHOD ListPop arguments) l) as out eqn:Hout.
      revert Hout.
      unfold invoke, LIST_METHOD, ListPop, try_catch, RJSValidateArgumentCount.
      destruct (argumentCount arguments =? 0); [|intros ->; reflexivity].
      unfold bind at 1 2 3. unfold ret at 1. unfold List_size at 1.
      unfold bind at 1. unfold get_list at 1. unfold ret at 1. cbv beta iota.
      change (this (mkFrame l None None)) with l.
      destruct (size_of l =? 0).
      * unfold bind at 1.
        destruct (List_verify_in_transaction _) as [f1 [e1|[]]] eqn:Htx;
          apply List_verify_in_transaction_frame in Htx; subst f1;
          intros ->; reflexivity.
      * unfold bind at 1.
        destruct (List_get (size_of l - 1) _) as [f1 [e1|row]] eqn:Hget;
          apply List_get_frame in Hget; subst f1; [intros ->; reflexivity|].
        unfold bind at 1. unfold set_returnObject at 1. cbv beta iota.
        destruct (List_remove (size_of l - 1) _) as [f2 [e2|[]]] eqn:Hrem.
        -- apply List_remove_throws in Hrem. subst f2. intros ->; reflexivity.
        -- apply List_remove_exception_slot in Hrem. intros ->. simpl in *.
           rewrite Hrem. discriminate.
    + remember (invoke (LIST_METHOD ListShift arguments) l) as out eqn:Hout.
      revert Hout.
      unfold invoke, LIST_METHOD, ListShift, try_catch, RJSValidateArgumentCount.
      destruct (argumentCount arguments =? 0); [|intros ->; reflexivity].
      unfold bind at 1 2 3. unfold ret at 1. unfold List_size at 1.
      unfold bind at 1. unfold get_list at 1. unfold ret at 1. cbv beta iota.
      change (this (mkFrame l None None)) with l.
      destruct (size_of l =? 0).
      * unfold bind at 1.
        destruct (List_verify_in_transaction _) as [f1 [e1|[]]] eqn:Htx;
          apply List_verify_in_transaction_frame in Htx; subst f1;
          intros ->; reflexivity.
      * unfold bind at 1.
        destruct (List_get 0 _) as [f1 [e1|row]] eqn:Hget;
          apply List_get_frame in Hget; subst f1; [intros ->; reflexivity|].
        unfold bind at 1. unfold set_returnObject at 1. cbv beta iota.
        destruct (List_remove 0 _) as [f2 [e2|[]]] eqn:Hrem.
        -- apply List_remove_throws in Hrem. subst f2. intros ->; reflexivity.
        -- apply List_remove_exception_slot in Hrem. intros ->. simpl in *.
           rewrite Hrem. discriminate.
  - intros [rows tx] first last Htx Hfirst Hlast. simpl in *. subst tx.
    apply lookup_lt_Some in Hfirst as Hlen.
    assert (Hsize : (size_of (mkList rows false) =? 0) = false).
    { apply Z.eqb_neq. unfold size_of. simpl. lia. }
    assert (Hremove : forall (index : Z) (f : Frame),
               this f = mkList rows false ->
               0 <= index < Z.of_nat (length rows) ->
               List_remove index f = (f, inl WriteOutsideTransaction)).
    { intros index f Hf Hi.
      unfold List_remove, List_size, List_verify_in_transaction, bind, get_list, ret,
        throw. rewrite Hf. unfold size_of. simpl.
      destruct (Z.ltb_spec index (Z.of_nat (length rows))); [|lia].
      rewrite Hf. reflexivity. }
    split.
    + unfold invoke, LIST_METHOD, ListPop.
      erewrite bind_run; cycle 1.
      { erewrite try_catch_throws; cycle 1.
        { erewrite bind_run; [|reflexivity].
          erewrite bind_run; [|reflexivity].
          cbv beta. cbn [this]. rewrite Hsize.
          erewrite bind_run; [| apply (List_get_run _ _ last);
                                [unfold size_of; simpl; lia | exact Hlast]].
          erewrite bind_run; [|reflexivity].
          apply Hremove; [reflexivity | unfold size_of; simpl; lia]. }
        reflexivity. }
      reflexivity.
    + unfold invoke, LIST_METHOD, ListShift.
      erewrite bind_run; cycle 1.
      { erewrite try_catch_throws; cycle 1.
        { erewrite bind_run; [|reflexivity].
          erewrite bind_run; [|reflexivity].
          cbv beta. cbn [this]. rewrite Hsize.
          erewrite bind_run; [| apply (List_get_run _ _ first); [lia | exact Hfirst]].
          erewrite bind_run; [|reflexivity].
          apply Hremove; [reflexivity | lia]. }
        reflexivity. }
      reflexivity.
Qed.

End Mutations.

(** ** Splice *)

Lemma splice_index_code size number :
  0 <= size <= LONG_MAX ->
  in_long number ->
  (if Z.min number (to_long size) <? 0
   then Z.max (to_long (to_size_t (size + to_size_t (Z.min number (to_long size))))) 0
   else Z.min number (to_long size))
  = splice_start size number.
Proof.
  intros Hsize Hnumber. unfold splice_start. cbv zeta.
  rewrite (to_long_small size) by (unfold in_long, LONG_MIN, LONG_MAX in *; lia).
  destruct (Z.ltb_spec (Z.min number size) 0) as [Hneg|Hpos]; [|reflexivity].
  rewrite to_long_size_plus_negative; [reflexivity | exact Hsize |].
  unfold in_long in Hnumber. lia.
Qed.

Lemma splice_remaining_code size index :
  0 <= index <= size ->
  size <= LONG_MAX ->
  to_long (to_size_t (size - to_size_t index)) = size - index.
Proof.
  intros Hindex Hsize. pose proof LONG_MAX_lt_SIZE_MODULUS as Hmod.
  rewrite (to_size_t_id index) by lia.
  rewrite to_size_t_id by lia.
  apply to_long_small. unfold in_long, LONG_MIN, LONG_MAX in *. lia.
Qed.

Lemma RJSValidateArgumentCountIsAtLeast_run f arguments min :
  min <= argumentCount arguments ->
  RJSValidateArgumentCountIsAtLeast (argumentCount arguments) min f = (f, inr tt).
Proof.
  intros H. unfold RJSValidateArgumentCountIsAtLeast.
  destruct (Z.ltb_spec (argumentCount arguments) min); [lia|reflexivity].
Qed.

Section Splice.

Variable to_object_index : JSValue -> exn + Row.
Variable RJSValidatedValueToNumber : JSValue -> exn + Z.

Lemma ListSplice_run (l : List) (arguments : list JSValue)
    (number : Z) (arg1 : option Z) (rows : list Row) :
  in_transaction l = true ->
  size_of l + argumentCount arguments <= LONG_MAX ->
  1 <= argumentCount arguments ->
  RJSValidatedValueToNumber (argument arguments 0) = inr number ->
  in_long number ->
  second_argument RJSValidatedValueToNumber arguments arg1 ->
  marshals to_object_index (drop 2 arguments) rows ->
  let start := splice_start (size_of l) number in
  let deleteCount := splice_deleteCount (size_of l) start arg1 in
  invoke (LIST_METHOD (ListSplice to_object_index RJSValidatedValueToNumber) arguments) l
  = mkOutcome
      (mkList (take (Z.to_nat start) (link_view l) ++ rows
               ++ drop (Z.to_nat (start + deleteCount)) (link_view l)) true)
      (inr (Some (JSArray (RJSObjectCreate
                             <$> take (Z.to_nat deleteCount)
                                   (drop (Z.to_nat start) (link_view l))))))
      None.
Proof.
  intros Htx Hmax Hargc Hnumber Hlong Harg1 Hrows start deleteCount.
  assert (Hsize : 0 <= size_of l <= LONG_MAX).
  { unfold size_of, argumentCount in *. lia. }
  pose proof (splice_start_range (size_of l) number (proj1 Hsize)) as Hstart.
  fold start in Hstart.
  pose proof (splice_deleteCount_range (size_of l) start arg1 Hstart) as Hcount.
  fold deleteCount in Hcount.
  pose proof LONG_MAX_lt_SIZE_MODULUS as Hmod.
  unfold invoke, LIST_METHOD, ListSplice.
  erewrite bind_run; cycle 1.
  { erewrite try_catch_run; [reflexivity|].
    erewrite bind_run; [|reflexivity].
    erewrite bind_run; [|apply RJSValidateArgumentCountIsAtLeast_run; exact Hargc].
    erewrite bind_run; [|rewrite Hnumber; reflexivity].
    cbn [this]. cbv zeta. rewrite (double_to_long_in_long number Hlong).
    rewrite (splice_index_code (size_of l) number Hsize Hlong).
    fold start.
    erewrite (bind_run _ _ _ _ deleteCount); cycle 1.
    { destruct arg1 as [number1|]; simpl in Harg1.
      - destruct Harg1 as (Hargc2 & Hnumber1 & Hlong1).
        destruct (Z.ltb_spec (argumentCount arguments) 2); [lia|].
        erewrite bind_run; [|rewrite Hnumber1; reflexivity].
        cbv zeta. rewrite (double_to_long_in_long number1 Hlong1).
        rewrite splice_remaining_code by lia.
        reflexivity.
      - destruct (Z.ltb_spec (argumentCount arguments) 2); [|lia].
        rewrite splice_remaining_code by lia.
        reflexivity. }
    rewrite (to_size_t_id deleteCount) by lia.
    erewrite bind_run; [| apply splice_remove_loop_run;
      [exact Htx | lia | cbn [this]; lia | cbn [this]; lia]].
    erewrite bind_run; [| apply (splice_insert_loop_run _ _ rows Hrows _ 2 start
        (take (Z.to_nat start) (link_view l))
        (drop (Z.to_nat start + Z.to_nat deleteCount) (link_view l)));
      [exact Htx | reflexivity | lia | | ]].
    - reflexivity.
    - unfold size_of in *. rewrite length_take_le by lia. lia.
    - unfold size_of, argumentCount in *. rewrite length_take_le by lia.
      rewrite length_drop. lia. }
  unfold set_rows. cbn. rewrite Htx.
  rewrite Z2Nat.inj_add by lia. reflexivity.
Qed.



End Splice.

(** ** Keys: the pattern, the parser and the printer *)

Ltac eval_digit_value :=
  unfold digit_value;
  repeat match goal with
         | |- context [Z.of_nat (nat_of_ascii ?c)] =>
             let v := eval vm_compute in (Z.of_nat (nat_of_ascii c)) in
             change (Z.of_nat (nat_of_ascii c)) with v
         end.

Lemma is_digit_cases c :
  is_digit c = true ->
  (c = "0" \/ c = "1" \/ c = "2" \/ c = "3" \/ c = "4"
   \/ c = "5" \/ c = "6" \/ c = "7" \/ c = "8" \/ c = "9")%char.
Proof.
  destruct c as [[] [] [] [] [] [] [] []]; intros H; try discriminate H; tauto.
Qed.

(** The digits of a string that the decimal reader of the library
    accepts, and the value that [decimal_value] gives them. *)
Lemma uint_of_string_all_digits s :
  all_digits s = true -> exists d, NilEmpty.uint_of_string s = Some d.
Proof.
  induction s as [|c s IH]; simpl; intros H.
  - exists Nil. reflexivity.
  - apply andb_prop in H as [Hc Hs].
    destruct (IH Hs) as [d ->].
    destruct (is_digit_cases c Hc) as [->|[->|[->|[->|[->|[->|[->|[->|[->| ->]]]]]]]]];
      eexists; reflexivity.
Qed.

Lemma all_digits_string_of_uint d : all_digits (NilEmpty.string_of_uint d) = true.
Proof. induction d; simpl; auto. Qed.

Lemma decimal_value_of_uint_acc s :
  forall d acc,
  NilEmpty.uint_of_string s = Some d ->
  decimal_value (Z.pos acc) s = Z.pos (Pos.of_uint_acc d acc).
Proof.
  induction s as [|c s IH]; simpl; intros d acc H.
  - injection H as <-. reflexivity.
  - destruct (NilEmpty.uint_of_string s) as [d'|]; [|discriminate H].
    apply uint_of_char_spec in H.
    destruct H as [[-> ->]|[[-> ->]|[[-> ->]|[[-> ->]|[[-> ->]|[[-> ->]|[[-> ->]|
                  [[-> ->]|[[-> ->]|[-> ->]]]]]]]]]];
      simpl Pos.of_uint_acc; rewrite <- (IH d' _ eq_refl); f_equal;
      eval_digit_value; lia.
Qed.

Lemma decimal_value_of_uint s d :
  NilEmpty.uint_of_string s = Some d ->
  decimal_value 0 s = Z.of_N (Pos.of_uint d).
Proof.
  revert d. induction s as [|c s IH]; simpl; intros d H.
  - injection H as <-. reflexivity.
  - destruct (NilEmpty.uint_of_string s) as [d'|] eqn:Hs; [|discriminate H].
    apply uint_of_char_spec in H.
    destruct H as [[-> ->]|[[-> ->]|[[-> ->]|[[-> ->]|[[-> ->]|[[-> ->]|[[-> ->]|
                  [[-> ->]|[[-> ->]|[-> ->]]]]]]]]]];
      simpl Pos.of_uint;
      try (apply (IH d' eq_refl));
      eval_digit_value; simpl Z.add;
      apply (decimal_value_of_uint_acc s d' _ Hs).
Qed.

(** A key matches the pattern exactly when its digits are a decimal
    number without leading zeros. *)
Lemma matches_canonical_index_uint s :
  matches_canonical_index s = true ->
  exists d, NilEmpty.uint_of_string s = Some d /\ d <> Nil /\ unorm d = d.
Proof.
  destruct s as [|c s]; simpl; [discriminate|].
  intros H. apply orb_prop in H as [H|H].
  - apply andb_prop in H as [Hc Hs].
    apply Ascii.eqb_eq in Hc as ->. apply String.eqb_eq in Hs as ->.
    exists (D0 Nil). repeat split. discriminate.
  - apply andb_prop in H as [Hc Hs].
    destruct (uint_of_string_all_digits s Hs) as [d ->].
    assert (Hd : is_digit c = true).
    { unfold is_nonzero_digit, is_digit in *.
      apply andb_prop in Hc as [H1 H2]. apply andb_true_intro.
      split; [|exact H2].
      apply Nat.leb_le in H1. apply Nat.leb_le. lia. }
    destruct (is_digit_cases c Hd) as [->|[->|[->|[->|[->|[->|[->|[->|[->| ->]]]]]]]]];
      [discriminate Hc | ..];
      eexists; (split; [reflexivity|]); (split; [discriminate | reflexivity]).
Qed.

Lemma unorm_fixed_matches d :
  unorm d = d -> matches_canonical_index (NilZero.string_of_uint d) = true.
Proof.
  intros H. destruct d; try (simpl; rewrite all_digits_string_of_uint; reflexivity).
  - discriminate H.
  - rewrite unorm_D0 in H.
    destruct d as [| | | | | | | | | |]; [reflexivity | ..].
    all: exfalso.
    all: match type of H with
         | unorm ?u = _ =>
             assert (Hn : u <> Nil) by discriminate;
             pose proof (nb_digits_unorm u Hn) as Hle;
             rewrite H in Hle; simpl in Hle; lia
         end.
Qed.

Lemma to_uint_normal n : unorm (N.to_uint n) = N.to_uint n.
Proof.
  rewrite <- DecimalN.Unsigned.to_of, DecimalN.Unsigned.of_to. reflexivity.
Qed.

Lemma to_uint_not_Nil n : N.to_uint n <> Nil.
Proof.
  rewrite <- to_uint_normal. unfold unorm.
  destruct (nzhead (N.to_uint n)); discriminate.
Qed.

(** The printed index is a canonical key, and reads back as the index. *)
Lemma sprintf_zu_matches i : matches_canonical_index (sprintf_zu i) = true.
Proof. apply unorm_fixed_matches, to_uint_normal. Qed.

Lemma decimal_value_sprintf_zu i : 0 <= i -> decimal_value 0 (sprintf_zu i) = i.
Proof.
  intros Hi. unfold sprintf_zu.
  pose proof (to_uint_not_Nil (Z.to_N i)) as Hnil.
  rewrite (decimal_value_of_uint _ (N.to_uint (Z.to_N i))).
  - change (Pos.of_uint (N.to_uint (Z.to_N i))) with (N.of_uint (N.to_uint (Z.to_N i))).
    rewrite DecimalN.Unsigned.of_to. lia.
  - unfold NilZero.string_of_uint.
    destruct (N.to_uint (Z.to_N i)) eqn:Hd; try apply NilEmpty.usu.
    congruence.
Qed.

(** A canonical key is the printed form of its value. *)
Lemma sprintf_zu_decimal_value s :
  matches_canonical_index s = true ->
  0 <= decimal_value 0 s /\ sprintf_zu (decimal_value 0 s) = s.
Proof.
  intros H. destruct (matches_canonical_index_uint s H) as (d & Hs & Hnil & Hnorm).
  rewrite (decimal_value_of_uint s d Hs). split; [lia|].
  unfold sprintf_zu. rewrite N2Z.id.
  change (Pos.of_uint d) with (N.of_uint d).
  rewrite DecimalN.Unsigned.to_of, Hnorm.
  apply NilEmpty.sus in Hs.
  unfold NilZero.string_of_uint. destruct d; congruence.
Qed.

Lemma RJSValidatedPositiveIndex_sprintf_zu i :
  0 <= i <= LONG_MAX -> RJSValidatedPositiveIndex (sprintf_zu i) = inr i.
Proof.
  intros Hi. unfold RJSValidatedPositiveIndex.
  rewrite sprintf_zu_matches, decimal_value_sprintf_zu by lia.
  destruct (Z.leb_spec i LONG_MAX); [reflexivity|lia].
Qed.

Lemma RJSValidatedPositiveIndex_inr key i :
  RJSValidatedPositiveIndex key = inr i <->
  matches_canonical_index key = true /\ decimal_value 0 key = i /\ i <= LONG_MAX.
Proof.
  unfold RJSValidatedPositiveIndex. split.
  - destruct (matches_canonical_index key); [|discriminate].
    destruct (Z.leb_spec (decimal_value 0 key) LONG_MAX); [|discriminate].
    intros [= <-]. auto.
  - intros (-> & <- & Hmax).
    destruct (Z.leb_spec (decimal_value 0 key) LONG_MAX); [reflexivity|lia].
Qed.

Lemma property_names_loop_run count :
  forall i : Z,
  property_names_loop count i
  = (fun k : nat => sprintf_zu (i + Z.of_nat k)) <$> seq 0 count.
Proof.
  induction count as [|count IH]; intros i; simpl.
  - reflexivity.
  - rewrite Z.add_0_r. f_equal.
    rewrite IH, <- fmap_S_seq, <- list_fmap_compose.
    apply list_fmap_ext. intros _ k _. simpl. f_equal. lia.
Qed.

Lemma ListPropertyNames_run (l : List) :
  ListPropertyNames l
  = (fun i : nat => sprintf_zu (Z.of_nat i)) <$> seq 0 (length (link_view l)).
Proof.
  unfold ListPropertyNames, size_of. cbv zeta.
  rewrite property_names_loop_run, Nat2Z.id. reflexivity.
Qed.

Lemma length_is_no_index : RJSValidatedPositiveIndex "length" = inl NotAnIndexKey.
Proof. reflexivity. Qed.

Lemma index_key_is_not_length key index :
  RJSValidatedPositiveIndex key = inr index -> String.eqb key "length" = false.
Proof.
  intros Hindex. destruct (String.eqb_spec key "length") as [->|_]; [|reflexivity].
  rewrite length_is_no_index in Hindex. discriminate.
Qed.

Lemma classify_Index key n :
  classify key = Index n <->
  matches_canonical_index key = true /\ key = sprintf_zu n /\ 0 <= n <= LONG_MAX.
Proof.
  unfold classify. split.
  - destruct (String.eqb key "length"); [discriminate|].
    destruct (RJSValidatedPositiveIndex key) as [e|i] eqn:Hkey; [discriminate|].
    intros [= <-].
    apply RJSValidatedPositiveIndex_inr in Hkey as (Hmatch & <- & Hmax).
    destruct (sprintf_zu_decimal_value key Hmatch) as [Hpos Hprint].
    auto.
  - intros (_ & -> & Hn).
    rewrite (RJSValidatedPositiveIndex_sprintf_zu n Hn).
    rewrite (index_key_is_not_length _ n (RJSValidatedPositiveIndex_sprintf_zu n Hn)).
    reflexivity.
Qed.

Section Keys.

Variable to_object_index : JSValue -> exn + Row.

(** C2: the key ["length"] is the length pseudo-property; a key is an
    index [n] exactly when it matches the pattern of a canonical index,
    which makes it the decimal representation of [n] without leading
    zeros, sign or fraction, and [n] does not overflow; an overflowing
    key and every other key is not an index, and for such a key the
    property read returns [NULL] and the property write returns
    [false], neither raising an error nor changing the list.  A key
    that is the index [n] of an element reads and writes that element. *)
Theorem key_classification :
  classify "length" = Length
  /\ (forall (key : string) (n : Z),
        classify key = Index n <->
        matches_canonical_index key = true /\ key = sprintf_zu n /\ 0 <= n <= LONG_MAX)
  /\ (forall key : string,
        matches_canonical_index key = true ->
        LONG_MAX < decimal_value 0 key ->
        classify key = NotAnIndex)
  /\ (forall key : string,
        key <> "length"%string ->
        matches_canonical_index key = false ->
        classify key = NotAnIndex)
  /\ (classify "007" = NotAnIndex /\ classify "-1" = NotAnIndex
      /\ classify "+1" = NotAnIndex /\ classify "1.5" = NotAnIndex
      /\ classify " 1" = NotAnIndex /\ classify "" = NotAnIndex
      /\ classify "9223372036854775808" = NotAnIndex
      /\ classify "9223372036854775807" = Index LONG_MAX
      /\ classify "0" = Index 0)
  /\ (forall (l : List) (key : string) (value : JSValue),
        classify key = NotAnIndex ->
        invoke (ListGetProperty key) l = mkOutcome l (inr None) None
        /\ invoke (ListSetProperty to_object_index key value) l
           = mkOutcome l (inr false) None)
  /\ (forall (l : List) (key : string) (n : Z) (element : Row),
        classify key = Index n ->
        link_view l !! Z.to_nat n = Some element ->
        invoke (ListGetProperty key) l
        = mkOutcome l (inr (Some (RJSObjectCreate element))) None
        /\ forall (value : JSValue) (row : Row),
             in_transaction l = true ->
             to_object_index value = inr row ->
             invoke (ListSetProperty to_object_index key value) l
             = mkOutcome (mkList (<[Z.to_nat n := row]> (link_view l)) true)
                         (inr true) None).
Proof.
  split; [reflexivity|].
  split; [exact classify_Index|].
  split; [|split; [|split; [|split]]].
  - intros key Hmatch Hover. unfold classify, RJSValidatedPositiveIndex.
    rewrite Hmatch.
    destruct (String.eqb_spec key "length") as [->|_]; [discriminate Hmatch|].
    destruct (Z.leb_spec (decimal_value 0 key) LONG_MAX); [lia|reflexivity].
  - intros key Hkey Hmatch. unfold classify, RJSValidatedPositiveIndex.
    rewrite Hmatch.
    destruct (String.eqb_spec key "length") as [->|_]; [congruence|reflexivity].
  - repeat split.
  - intros l key value. unfold classify.
    destruct (String.eqb key "length") eqn:Hkey; [discriminate|].
    destruct (RJSValidatedPositiveIndex key) as [e|i] eqn:Hindex; [|discriminate].
    intros _.
    assert (He : e = NotAnIndexKey).
    { unfold RJSValidatedPositiveIndex in Hindex.
      destruct (matches_canonical_index key); [|congruence].
      destruct (decimal_value 0 key <=? LONG_MAX); congruence. }
    subst e. split.
    + unfold invoke, ListGetProperty. cbv zeta. rewrite Hkey.
      erewrite try_catch_throws; cycle 1.
      { erewrite bind_throws; [reflexivity|]. rewrite Hindex. reflexivity. }
      destruct l; reflexivity.
    + unfold invoke, ListSetProperty. cbv zeta. rewrite Hkey.
      erewrite try_catch_throws; cycle 1.
      { erewrite bind_run; [|reflexivity].
        erewrite bind_throws; [reflexivity|]. rewrite Hindex. reflexivity. }
      destruct l; reflexivity.
  - intros l key n element Hclass Helement.
    apply classify_Index in Hclass as (_ & -> & Hn).
    pose proof (RJSValidatedPositiveIndex_sprintf_zu n Hn) as Hindex.
    pose proof (index_key_is_not_length _ n Hindex) as Hkey.
    apply lookup_lt_Some in Helement as Hlt.
    split.
    + unfold invoke, ListGetProperty. cbv zeta. rewrite Hkey.
      erewrite try_catch_run; cycle 1.
      { erewrite bind_run; [|rewrite Hindex; reflexivity].
        erewrite bind_run; [reflexivity|].
        apply List_get_run; [lia | exact Helement]. }
      destruct l; reflexivity.
    + intros value row Htx Hrow.
      unfold invoke, ListSetProperty. cbv zeta. rewrite Hkey.
      erewrite try_catch_run; cycle 1.
      { erewrite bind_run; [|reflexivity].
        erewrite bind_run; [|rewrite Hindex; reflexivity].
        erewrite bind_run; [reflexivity|].
        apply List_set_run; [exact Htx | unfold size_of; cbn [this]; lia | exact Hrow]. }
      unfold set_rows. cbn. rewrite Htx. reflexivity.
Qed.

(** C7: at every state the enumerated property names are the decimal
    strings of [0 .. size - 1] in ascending order, computed from the
    size of the list at the call, so that after a [push] they are those
    of the new size; each is the canonical key of its position; and the
    ["length"] property is the number of names enumerated. *)
Theorem ListPropertyNames_enumerates_indices :
  forall l : List,
    ListPropertyNames l
    = (fun i : nat => sprintf_zu (Z.of_nat i)) <$> seq 0 (length (link_view l))
    /\ (forall (i : nat) (key : string),
          ListPropertyNames l !! i = Some key ->
          key = sprintf_zu (Z.of_nat i)
          /\ (i < length (link_view l))%nat
          /\ (size_of l <= LONG_MAX -> classify key = Index (Z.of_nat i)))
    /\ invoke (ListGetProperty "length") l
       = mkOutcome l (inr (Some (JSNumber (Z.of_nat (length (ListPropertyNames l)))))) None
    /\ (forall (values : list JSValue) (rows : list Row),
          in_transaction l = true ->
          values <> [] ->
          marshals to_object_index values rows ->
          ListPropertyNames
            (list_after (invoke (LIST_METHOD (ListPush to_object_index) values) l))
          = (fun i : nat => sprintf_zu (Z.of_nat i))
              <$> seq 0 (length (link_view l) + length values)).
Proof.
  intros l. split; [apply ListPropertyNames_run|]. split; [|split].
  - intros i key. rewrite ListPropertyNames_run, list_lookup_fmap.
    destruct (seq 0 (length (link_view l)) !! i) as [k|] eqn:Hk; [|discriminate].
    apply lookup_seq in Hk as [-> Hlt]. simpl. intros [= <-].
    split; [reflexivity|]. split; [exact Hlt|].
    intros Hmax. apply classify_Index.
    split; [apply sprintf_zu_matches|]. split; [reflexivity|].
    unfold size_of in Hmax. lia.
  - rewrite ListPropertyNames_run, length_fmap, length_seq.
    destruct l; reflexivity.
  - intros values rows Htx Hvalues Hrows.
    rewrite (ListPush_run to_object_index l values rows Htx Hvalues Hrows).
    rewrite ListPropertyNames_run. simpl.
    rewrite length_app, (Forall2_length _ _ _ Hrows). reflexivity.
Qed.

End Keys.

(** ** The property hooks and the views *)

Section PropertyHooks.

Variable to_object_index : JSValue -> exn + Row.

(** C8: reading ["length"] returns the element count; a write to
    ["length"] fails with [ReadOnlyProperty] whatever the value, and
    leaves the list unchanged. *)
Theorem length_is_count_and_read_only :
  forall (l : List) (value : JSValue),
    invoke (ListGetProperty "length") l
    = mkOutcome l (inr (Some (JSNumber (Z.of_nat (length (link_view l)))))) None
    /\ invoke (ListSetProperty to_object_index "length" value) l
       = mkOutcome l (inr false) (Some ReadOnlyProperty).
Proof.
  intros [rows tx] value. split; reflexivity.
Qed.

(** C3: for a canonical index [i] at or beyond the size, a property
    read returns undefined and raises nothing, and a property write
    raises the out-of-range error to the host; both leave the list
    unchanged. *)
Theorem out_of_range_read_undefined_write_raises :
  forall (l : List) (key : string) (i : Z) (value : JSValue),
    RJSValidatedPositiveIndex key = inr i ->
    size_of l <= i ->
    invoke (ListGetProperty key) l = mkOutcome l (inr (Some JSUndefined)) None
    /\ invoke (ListSetProperty to_object_index key value) l
       = mkOutcome l (inr false) (Some OutOfRange).
Proof.
  intros l key i value Hindex Hrange.
  pose proof (index_key_is_not_length key i Hindex) as Hkey.
  split.
  - unfold invoke, ListGetProperty. cbv zeta. rewrite Hkey.
    erewrite try_catch_throws; cycle 1.
    { erewrite bind_run; [|rewrite Hindex; reflexivity].
      erewrite bind_throws; [reflexivity|].
      apply List_get_out_of_range. exact Hrange. }
    reflexivity.
  - unfold invoke, ListSetProperty. cbv zeta. rewrite Hkey.
    erewrite try_catch_throws; cycle 1.
    { erewrite bind_run; [|reflexivity].
      erewrite bind_run; [|rewrite Hindex; reflexivity].
      erewrite bind_throws; [reflexivity|].
      apply List_set_out_of_range. exact Hrange. }
    reflexivity.
Qed.

(** C9: [snapshot()] takes no argument and fails with
    [InvalidArgumentCount] otherwise; it returns a static view built
    from the list's query at the time of the call, whose rows stay the
    rows the list had then, in their order, whatever state the list is
    in later. *)
Theorem ListStaticResults_is_static :
  (forall (l : List) (arguments : list JSValue),
      arguments <> [] ->
      invoke (LIST_METHOD ListStaticResults arguments) l
      = mkOutcome l (inr None) (Some InvalidArgumentCount))
  /\ (forall l : List,
        let view := mkResults QueryLinkView false (link_view l) in
        invoke (LIST_METHOD ListStaticResults []) l
        = mkOutcome l (inr (Some (JSResultsObject view))) None
        /\ Results_rows view l = link_view l
        /\ (forall later : List, Results_rows view later = link_view l)
        /\ (forall (values : list JSValue) (rows : list Row),
               in_transaction l = true ->
               values <> [] ->
               marshals to_object_index values rows ->
               let later := list_after (invoke (LIST_METHOD (ListPush to_object_index) values) l) in
               link_view later = link_view l ++ rows
               /\ Results_rows view later = link_view l)).
Proof.
  split.
  - intros [rows tx] [|a arguments] Hargs; [congruence|].
    unfold invoke, LIST_METHOD, ListStaticResults, try_catch, bind,
      RJSValidateArgumentCount, argumentCount.
    destruct (Z.eqb_spec (Z.of_nat (length (a :: arguments))) 0) as [H0|_];
      [simpl in H0; lia|].
    reflexivity.
  - intros l view. split; [destruct l; reflexivity|].
    split; [reflexivity|]. split; [reflexivity|].
    intros values rows Htx Hvalues Hrows later. split; [|reflexivity].
    unfold later.
    rewrite (ListPush_run to_object_index l values rows Htx Hvalues Hrows).
    reflexivity.
Qed.

End PropertyHooks.

(** ** The contracts on concrete calls *)



(** ["007"] and an overflowing key are not handled; ["3"] is index 3. *)
Lemma key_classification_witness :
  let l := mkList [10; 11; 12; 13; 14]%nat true in
  (classify "007" = NotAnIndex
   /\ invoke (ListGetProperty "007") l = mkOutcome l (inr None) None
   /\ invoke (ListSetProperty object_index_of "007" (JSRealmObject 7%nat)) l
      = mkOutcome l (inr false) None)
  /\ (matches_canonical_index "18446744073709551616" = true
      /\ classify "18446744073709551616" = NotAnIndex)
  /\ ("foo"%string <> "length"%string /\ classify "foo" = NotAnIndex)
  /\ (matches_canonical_index "3" = true /\ classify "3" = Index 3).
Proof.
  intros l.
  destruct (key_classification object_index_of)
    as (_ & Hindex & Hoverflow & Hother & _ & Hhooks & _).
  split; [|split; [|split]].
  - split; [reflexivity|].
    exact (Hhooks l "007"%string (JSRealmObject 7%nat) eq_refl).
  - split; [reflexivity|].
    apply Hoverflow; [reflexivity | vm_compute; reflexivity].
  - split; [discriminate|].
    apply Hother; [discriminate | reflexivity].
  - split; [reflexivity|].
    apply Hindex. split; [reflexivity|]. split; [reflexivity|].
    vm_compute. split; discriminate.
Defined.

(** Index 5 of a list of 5 elements. *)
Lemma out_of_range_read_undefined_write_raises_witness :
  let l := mkList [10; 11; 12; 13; 14]%nat true in
  RJSValidatedPositiveIndex "5" = inr 5
  /\ size_of l <= 5
  /\ invoke (ListGetProperty "5") l = mkOutcome l (inr (Some JSUndefined)) None
  /\ invoke (ListSetProperty object_index_of "5" (JSRealmObject 7%nat)) l
     = mkOutcome l (inr false) (Some OutOfRange).
Proof.
  intros l.
  assert (Hrange : size_of l <= 5) by (vm_compute; discriminate).
  split; [reflexivity|]. split; [exact Hrange|].
  exact (out_of_range_read_undefined_write_raises object_index_of l "5" 5
           (JSRealmObject 7%nat) eq_refl Hrange).
Defined.

(** [pop()] on [[a]] returns [a] and leaves size 0; [shift()] on
    [[a, b]] returns [a] and leaves [[b]]. *)
Lemma ListPop_ListShift_contract_witness :
  invoke (LIST_METHOD ListPop []) (mkList [10%nat] true)
  = mkOutcome (mkList [] true) (inr (Some (JSRealmObject 10%nat))) None
  /\ invoke (LIST_METHOD ListShift []) (mkList [10; 11]%nat true)
     = mkOutcome (mkList [11%nat] true) (inr (Some (JSRealmObject 10%nat))) None
  /\ invoke (LIST_METHOD ListPop [JSUndefined]) (mkList [10%nat] true)
     = mkOutcome (mkList [10%nat] true) (inr None) (Some InvalidArgumentCount)
  /\ invoke (LIST_METHOD ListPop []) (mkList [] false)
     = mkOutcome (mkList [] false) (inr None) (Some WriteOutsideTransaction)
  /\ invoke (LIST_METHOD ListShift []) (mkList [] true)
     = mkOutcome (mkList [] true) (inr (Some JSUndefined)) None.
Proof.
  destruct ListPop_ListShift_contract as (Harity & Hempty_no_tx & Hempty & Hnonempty).
  split; [|split; [|split; [|split]]].
  - destruct (Hnonempty (mkList [10%nat] true)) as [(last & Hlast & Hcall & _) _];
      [vm_compute; discriminate | reflexivity |].
    injection Hlast as <-. exact Hcall.
  - destruct (Hnonempty (mkList [10; 11]%nat true)) as [_ (first & Hfirst & Hcall & _)];
      [vm_compute; discriminate | reflexivity |].
    injection Hfirst as <-. exact Hcall.
  - apply (Harity (mkList [10%nat] true) [JSUndefined]). discriminate.
  - apply (Hempty_no_tx (mkList [] false)); reflexivity.
  - apply (Hempty (mkList [] true)); reflexivity.
Defined.

(** [unshift([x, y])] on [[a, b]]. *)
Lemma ListUnshift_prepends_in_order_witness :
  let values := [JSRealmObject 20%nat; JSRealmObject 21%nat] in
  marshals object_index_of values [20; 21]%nat
  /\ invoke (LIST_METHOD (ListUnshift object_index_of) values) (mkList [10; 11]%nat true)
     = mkOutcome (mkList [20; 21; 10; 11]%nat true) (inr (Some (JSNumber 4))) None.
Proof.
  intros values.
  assert (Hrows : marshals object_index_of values [20; 21]%nat)
    by (repeat constructor).
  split; [exact Hrows|].
  assert (Hvalues : values <> []) by discriminate.
  exact (proj2 (proj1 (ListUnshift_prepends_in_order object_index_of)
                  (mkList [10; 11]%nat true) values [20; 21]%nat eq_refl Hvalues Hrows)).
Defined.

(** [push([x, y])] on [[a, b]]. *)
Lemma ListPush_appends_in_order_witness :
  let values := [JSRealmObject 20%nat; JSRealmObject 21%nat] in
  marshals object_index_of values [20; 21]%nat
  /\ invoke (LIST_METHOD (ListPush object_index_of) values) (mkList [10; 11]%nat true)
     = mkOutcome (mkList [10; 11; 20; 21]%nat true) (inr (Some (JSNumber 4))) None.
Proof.
  intros values.
  assert (Hrows : marshals object_index_of values [20; 21]%nat)
    by (repeat constructor).
  split; [exact Hrows|].
  assert (Hvalues : values <> []) by discriminate.
  exact (proj1 (proj1 (ListPush_appends_in_order object_index_of)
                  (mkList [10; 11]%nat true) values [20; 21]%nat eq_refl Hvalues Hrows)).
Defined.

(** The names of a list of 3 elements, and of the list after a push. *)
Lemma ListPropertyNames_enumerates_indices_witness :
  let l := mkList [10; 11; 12]%nat true in
  ListPropertyNames l = ["0"; "1"; "2"]%string
  /\ classify "2" = Index 2
  /\ ListPropertyNames
       (list_after (invoke (LIST_METHOD (ListPush object_index_of) [JSRealmObject 20%nat]) l))
     = ["0"; "1"; "2"; "3"]%string.
Proof.
  intros l.
  destruct (ListPropertyNames_enumerates_indices object_index_of l)
    as (Hnames & Hkeys & _ & Hpush).
  split; [exact Hnames|]. split.
  - destruct (Hkeys 2%nat "2"%string eq_refl) as (_ & _ & Hclass).
    apply Hclass. vm_compute. discriminate.
  - apply (Hpush [JSRealmObject 20%nat] [20%nat]);
      [reflexivity | discriminate | repeat constructor].
Defined.

(** A snapshot of [[a, b]] keeps its rows after a push. *)
Lemma ListStaticResults_is_static_witness :
  let l := mkList [10; 11]%nat true in
  let view := mkResults QueryLinkView false [10; 11]%nat in
  let later :=
    list_after (invoke (LIST_METHOD (ListPush object_index_of) [JSRealmObject 20%nat]) l) in
  invoke (LIST_METHOD ListStaticResults [JSUndefined]) l
  = mkOutcome l (inr None) (Some InvalidArgumentCount)
  /\ link_view later = [10; 11; 20]%nat
  /\ Results_rows view later = [10; 11]%nat.
Proof.
  intros l view later.
  destruct (ListStaticResults_is_static object_index_of) as [Harity Hview].
  split.
  - apply Harity. discriminate.
  - destruct (Hview l) as (_ & _ & _ & Hpush).
    apply (Hpush [JSRealmObject 20%nat] [20%nat]);
      [reflexivity | discriminate | repeat constructor].
Defined.

(** [pop()] outside a write transaction raises and keeps [[a, b]]. *)
Lemma ListPop_ListShift_error_leaves_list_witness :
  let l := mkList [10; 11]%nat false in
  jsException (invoke (LIST_METHOD ListPop []) l) = Some WriteOutsideTransaction
  /\ list_after (invoke (LIST_METHOD ListPop []) l) = l
  /\ jsException (invoke (LIST_METHOD ListShift []) l) = Some WriteOutsideTransaction
  /\ list_after (invoke (LIST_METHOD ListShift []) l) = l.
Proof.
  intros l.
  destruct ListPop_ListShift_error_leaves_list as [Herror _].
  destruct (Herror l [] WriteOutsideTransaction) as [Hpop Hshift].
  split; [reflexivity|]. split; [exact (Hpop eq_refl)|].
  split; [reflexivity|]. exact (Hshift eq_refl).
Defined.

(** * Further properties of the entry points *)

(** ** Outcomes of the primitives *)

Section PrimitiveOutcomes.

Variable to_object_index : JSValue -> exn + Row.

Lemma List_add_rejected f value e :
  in_transaction (this f) = true ->
  to_object_index value = inl e ->
  List_add to_object_index value f = (f, inl e).
Proof.
  intros Htx He.
  unfold List_add, List_verify_in_transaction, bind, get_list, ret, lift, throw. simpl.
  rewrite Htx, He. reflexivity.
Qed.

Lemma List_insert_rejected f value index e :
  in_transaction (this f) = true ->
  0 <= index <= size_of (this f) ->
  to_object_index value = inl e ->
  List_insert to_object_index value index f = (f, inl e).
Proof.
  intros Htx Hi He.
  unfold List_insert, List_size, List_verify_in_transaction, bind, get_list, ret,
    lift, throw. simpl.
  rewrite Htx. destruct (Z.leb_spec index (size_of (this f))); [|lia].
  rewrite He. reflexivity.
Qed.

(** [add] either throws and changes nothing, or appends the row of its
    value inside a write transaction. *)
Lemma List_add_cases f value f' r :
  List_add to_object_index value f = (f', r) ->
  (f' = f /\ exists e, r = inl e)
  \/ (exists row, to_object_index value = inr row
        /\ in_transaction (this f) = true
        /\ f' = set_rows f (link_view (this f) ++ [row]) /\ r = inr tt).
Proof.
  unfold List_add, List_verify_in_transaction, bind, get_list, ret, lift, throw,
    put_link_view. simpl.
  destruct (in_transaction (this f)); [|intros [= <- <-]; eauto].
  destruct (to_object_index value) as [e|row]; intros [= <- <-]; eauto 10.
Qed.

Lemma List_insert_cases f value index f' r :
  List_insert to_object_index value index f = (f', r) ->
  (f' = f /\ exists e, r = inl e)
  \/ (exists row, to_object_index value = inr row
        /\ in_transaction (this f) = true
        /\ index <= size_of (this f)
        /\ f' = set_rows f (take (Z.to_nat index) (link_view (this f))
                            ++ row :: drop (Z.to_nat index) (link_view (this f)))
        /\ r = inr tt).
Proof.
  unfold List_insert, List_size, List_verify_in_transaction, bind, get_list, ret,
    lift, throw, put_link_view. simpl.
  destruct (in_transaction (this f)); [|intros [= <- <-]; eauto].
  destruct (Z.leb_spec index (size_of (this f))); [|intros [= <- <-]; eauto].
  destruct (to_object_index value) as [e|row]; intros [= <- <-]; eauto 10.
Qed.

(** ** Loops that meet a rejected value *)

Lemma push_loop_rejected accepted rows rejected rest e :
  marshals to_object_index accepted rows ->
  to_object_index rejected = inl e ->
  forall f, in_transaction (this f) = true ->
  push_loop to_object_index (accepted ++ rejected :: rest) f
  = (set_rows f (link_view (this f) ++ rows), inl e).
Proof.
  intros Hrows He.
  induction Hrows as [|value row accepted rows Hrow _ IH]; intros f Htx; simpl.
  - erewrite bind_throws; [|apply List_add_rejected; eassumption].
    rewrite app_nil_r, set_rows_same. reflexivity.
  - erewrite bind_run; [|apply List_add_run; eassumption].
    rewrite IH by exact Htx. simpl.
    rewrite set_rows_twice, <- app_assoc. reflexivity.
Qed.

Lemma unshift_loop_rejected accepted rows rejected rest e :
  marshals to_object_index accepted rows ->
  to_object_index rejected = inl e ->
  forall f front prior,
  in_transaction (this f) = true ->
  link_view (this f) = front ++ prior ->
  unshift_loop to_object_index (accepted ++ rejected :: rest)
    (Z.of_nat (length front)) f
  = (set_rows f (front ++ rows ++ prior), inl e).
Proof.
  intros Hrows He.
  induction Hrows as [|value row accepted rows Hrow _ IH];
    intros f front prior Htx Hlv; simpl.
  - erewrite bind_throws; [| apply List_insert_rejected;
      [exact Htx | unfold size_of; rewrite Hlv, length_app; lia | exact He]].
    rewrite <- Hlv, set_rows_same. reflexivity.
  - erewrite bind_run; [| apply (List_insert_run _ f value _ row Htx);
      [unfold size_of; rewrite Hlv, length_app; lia | exact Hrow]].
    rewrite Nat2Z.id, Hlv, take_app_length, drop_app_length.
    replace (Z.of_nat (length front) + 1) with (Z.of_nat (length (front ++ [row])))
      by (rewrite length_app; simpl; lia).
    rewrite (IH _ (front ++ [row]) prior);
      [| exact Htx | simpl; rewrite <- app_assoc; reflexivity].
    rewrite set_rows_twice, <- app_assoc. reflexivity.
Qed.

(** ** Loops in every outcome *)

Lemma push_loop_outcome arguments :
  forall f f' r,
  push_loop to_object_index arguments f = (f', r) ->
  exists rows,
    f' = set_rows f (link_view (this f) ++ rows)
    /\ marshals to_object_index (take (length rows) arguments) rows
    /\ (r = inr tt -> length rows = length arguments)
    /\ (rows <> [] -> in_transaction (this f) = true).
Proof.
  induction arguments as [|value rest IH]; intros f f' r; simpl.
  - intros [= <- <-]. exists []. rewrite app_nil_r, set_rows_same.
    repeat split; [constructor | congruence].
  - unfold bind at 1.
    destruct (List_add to_object_index value f) as [f1 r1] eqn:Hadd.
    apply List_add_cases in Hadd
      as [[-> [e ->]]|(row & Hrow & Htx & -> & ->)].
    + intros [= <- <-]. exists []. rewrite app_nil_r, set_rows_same.
      repeat split; [constructor | discriminate | congruence].
    + intros Hrest. apply IH in Hrest as (rows & -> & Hrows & Hall & _).
      exists (row :: rows). simpl. rewrite set_rows_twice, <- app_assoc.
      repeat split.
      * constructor; assumption.
      * intros Hr. rewrite (Hall Hr). reflexivity.
      * intros _. exact Htx.
Qed.

Lemma unshift_loop_outcome arguments :
  forall f front prior f' r,
  link_view (this f) = front ++ prior ->
  unshift_loop to_object_index arguments (Z.of_nat (length front)) f = (f', r) ->
  exists rows,
    f' = set_rows f (front ++ rows ++ prior)
    /\ marshals to_object_index (take (length rows) arguments) rows
    /\ (r = inr tt -> length rows = length arguments)
    /\ (rows <> [] -> in_transaction (this f) = true).
Proof.
  induction arguments as [|value rest IH]; intros f front prior f' r Hlv; simpl.
  - intros [= <- <-]. exists []. simpl. rewrite <- Hlv, set_rows_same.
    repeat split; [constructor | congruence].
  - unfold bind at 1.
    destruct (List_insert to_object_index value _ f) as [f1 r1] eqn:Hins.
    apply List_insert_cases in Hins
      as [[-> [e ->]]|(row & Hrow & Htx & _ & -> & ->)].
    + intros [= <- <-]. exists []. simpl. rewrite <- Hlv, set_rows_same.
      repeat split; [constructor | discriminate | congruence].
    + rewrite Nat2Z.id, Hlv, take_app_length, drop_app_length.
      replace (Z.of_nat (length front) + 1) with (Z.of_nat (length (front ++ [row])))
        by (rewrite length_app; simpl; lia).
      intros Hrest.
      apply (IH _ (front ++ [row]) prior) in Hrest as (rows & -> & Hrows & Hall & _);
        [| simpl; rewrite <- app_assoc; reflexivity].
      exists (row :: rows). simpl. rewrite set_rows_twice, <- app_assoc.
      repeat split.
      * constructor; assumption.
      * intros Hr. rewrite (Hall Hr). reflexivity.
      * intros _. exact Htx.
Qed.

End PrimitiveOutcomes.

(** The host's view of a method in terms of the run of its body. *)
Lemma method_outcome (body : M unit) (l : List) :
  invoke (try_catch body RJSSetException;; get_returnObject) l
  = match body (mkFrame l None None) with
    | (f', inr _) => mkOutcome (this f') (inr (returnObject f')) (exceptionObject f')
    | (f', inl e) => mkOutcome (this f') (inr (returnObject f')) (Some e)
    end.
Proof.
  unfold invoke, bind, try_catch.
  destruct (body (mkFrame l None None)) as [f' [e|[]]]; reflexivity.
Qed.

Lemma RJSValidateArgumentCountIsAtLeast_throws f arguments min :
  argumentCount arguments < min ->
  RJSValidateArgumentCountIsAtLeast (argumentCount arguments) min f
  = (f, inl InvalidArgumentCount).
Proof.
  intros H. unfold RJSValidateArgumentCountIsAtLeast.
  destruct (Z.ltb_spec (argumentCount arguments) min); [reflexivity|lia].
Qed.

Section AddingMethods.

Variable to_object_index : JSValue -> exn + Row.

(** X1: [push] and [unshift] do not roll back.  Inside a write
    transaction, when the values before the first rejected one are
    accepted, those values stay in the list, appended by [push] and in
    front for [unshift]; the call returns nothing and raises the
    exception of the rejected value. *)
Theorem ListPush_ListUnshift_keep_values_before_rejected :
  forall (l : List) (accepted : list JSValue) (rows : list Row)
         (rejected : JSValue) (rest : list JSValue) (e : exn),
    in_transaction l = true ->
    marshals to_object_index accepted rows ->
    to_object_index rejected = inl e ->
    invoke (LIST_METHOD (ListPush to_object_index) (accepted ++ rejected :: rest)) l
    = mkOutcome (mkList (link_view l ++ rows) true) (inr None) (Some e)
    /\ invoke (LIST_METHOD (ListUnshift to_object_index) (accepted ++ rejected :: rest)) l
       = mkOutcome (mkList (rows ++ link_view l) true) (inr None) (Some e).
Proof.
  intros l accepted rows rejected rest e Htx Hrows He.
  assert (Hargc : 1 <= argumentCount (accepted ++ rejected :: rest)).
  { unfold argumentCount. rewrite length_app. simpl. lia. }
  split.
  - unfold LIST_METHOD, ListPush. rewrite method_outcome.
    erewrite bind_run; [|apply RJSValidateArgumentCountIsAtLeast_run; exact Hargc].
    erewrite bind_throws;
      [| apply (push_loop_rejected _ accepted rows rejected rest e Hrows He); exact Htx].
    unfold set_rows. cbn. rewrite Htx. reflexivity.
  - unfold LIST_METHOD, ListUnshift. rewrite method_outcome.
    erewrite bind_run; [|apply RJSValidateArgumentCountIsAtLeast_run; exact Hargc].
    erewrite bind_throws;
      [| apply (unshift_loop_rejected _ accepted rows rejected rest e Hrows He
                  (mkFrame l None None) [] (link_view l) Htx eq_refl)].
    unfold set_rows. cbn. rewrite Htx. reflexivity.
Qed.

(** X2: whatever the arguments and the state, [push] only appends and
    [unshift] only prepends: the list after the call is the list before
    it with the rows of a prefix of the arguments added and the same
    transaction state; either the call raises and returns nothing, or
    it has added every argument, inside a write transaction, and
    returns the new size. *)
Theorem ListPush_ListUnshift_only_add :
  forall (l : List) (values : list JSValue),
    (exists rows : list Row,
        marshals to_object_index (take (length rows) values) rows
        /\ ((exists e : exn,
                invoke (LIST_METHOD (ListPush to_object_index) values) l
                = mkOutcome (mkList (link_view l ++ rows) (in_transaction l))
                            (inr None) (Some e))
            \/ (values <> [] /\ length rows = length values
                /\ in_transaction l = true
                /\ invoke (LIST_METHOD (ListPush to_object_index) values) l
                   = mkOutcome (mkList (link_view l ++ rows) true)
                       (inr (Some (JSNumber (size_of l + Z.of_nat (length values)))))
                       None)))
    /\ (exists rows : list Row,
           marshals to_object_index (take (length rows) values) rows
           /\ ((exists e : exn,
                   invoke (LIST_METHOD (ListUnshift to_object_index) values) l
                   = mkOutcome (mkList (rows ++ link_view l) (in_transaction l))
                               (inr None) (Some e))
               \/ (values <> [] /\ length rows = length values
                   /\ in_transaction l = true
                   /\ invoke (LIST_METHOD (ListUnshift to_object_index) values) l
                      = mkOutcome (mkList (rows ++ link_view l) true)
                          (inr (Some (JSNumber (size_of l + Z.of_nat (length values)))))
                          None))).
Proof.
  intros [lv tx] values. cbn [link_view in_transaction].
  set (f0 := mkFrame (mkList lv tx) None None).
  split.
  - unfold LIST_METHOD, ListPush. rewrite method_outcome. fold f0.
    destruct (Z.lt_ge_cases (argumentCount values) 1) as [Hlt|Hge].
    { exists []. split; [rewrite take_0; constructor|].
      left. exists InvalidArgumentCount.
      erewrite bind_throws;
        [|apply RJSValidateArgumentCountIsAtLeast_throws; exact Hlt].
      cbn. rewrite app_nil_r. reflexivity. }
    erewrite bind_run; [|apply RJSValidateArgumentCountIsAtLeast_run; exact Hge].
    destruct (push_loop to_object_index values f0) as [f1 r1] eqn:Hloop.
    pose proof (push_loop_outcome _ _ _ _ _ Hloop) as (rows & -> & Hrows & Hall & Htx).
    exists rows. split; [exact Hrows|].
    destruct r1 as [e|[]].
    + left. exists e. erewrite bind_throws; [|exact Hloop]. reflexivity.
    + right. specialize (Hall eq_refl).
      assert (Hne : rows <> []).
      { destruct rows; [|discriminate]. unfold argumentCount in Hge.
        simpl in Hall. lia. }
      specialize (Htx Hne). cbn in Htx.
      split; [intros ->; unfold argumentCount in Hge; simpl in Hge; lia|].
      split; [exact Hall|]. split; [exact Htx|].
      erewrite bind_run; [|exact Hloop].
      unfold set_rows. cbn. unfold size_of. cbn.
      rewrite Htx, length_app, Hall, Nat2Z.inj_add. reflexivity.
  - unfold LIST_METHOD, ListUnshift. rewrite method_outcome. fold f0.
    destruct (Z.lt_ge_cases (argumentCount values) 1) as [Hlt|Hge].
    { exists []. split; [rewrite take_0; constructor|].
      left. exists InvalidArgumentCount.
      erewrite bind_throws;
        [|apply RJSValidateArgumentCountIsAtLeast_throws; exact Hlt].
      reflexivity. }
    erewrite bind_run; [|apply RJSValidateArgumentCountIsAtLeast_run; exact Hge].
    destruct (unshift_loop to_object_index values 0 f0) as [f1 r1] eqn:Hloop.
    pose proof (unshift_loop_outcome _ values f0 [] lv f1 r1 eq_refl Hloop)
      as (rows & -> & Hrows & Hall & Htx).
    exists rows. split; [exact Hrows|].
    destruct r1 as [e|[]].
    + left. exists e. erewrite bind_throws; [|exact Hloop]. reflexivity.
    + right. specialize (Hall eq_refl).
      assert (Hne : rows <> []).
      { destruct rows; [|discriminate]. unfold argumentCount in Hge.
        simpl in Hall. lia. }
      specialize (Htx Hne). cbn in Htx.
      split; [intros ->; unfold argumentCount in Hge; simpl in Hge; lia|].
      split; [exact Hall|]. split; [exact Htx|].
      erewrite bind_run; [|exact Hloop].
      unfold set_rows. cbn. unfold size_of. cbn.
      rewrite Htx, length_app, Hall, Nat2Z.inj_add, Z.add_comm. reflexivity.
Qed.

End AddingMethods.

(** ** Splice in its other outcomes *)

Section SpliceOutcomes.

Variable to_object_index : JSValue -> exn + Row.
Variable RJSValidatedValueToNumber : JSValue -> exn + Z.








(** X4: [splice] reads its numeric arguments before it touches the
    list.  When the start, or the delete count of a call with at least
    two arguments, has no numeric value, the list is unchanged whatever
    the transaction state, nothing is returned and the exception of the
    conversion is raised. *)
Theorem ListSplice_invalid_number_changes_nothing :
  forall (l : List) (arguments : list JSValue) (e : exn),
    1 <= argumentCount arguments ->
    (RJSValidatedValueToNumber (argument arguments 0) = inl e
     \/ (2 <= argumentCount arguments
         /\ (exists number, RJSValidatedValueToNumber (argument arguments 0) = inr number)
         /\ RJSValidatedValueToNumber (argument arguments 1) = inl e)) ->
    invoke (LIST_METHOD (ListSplice to_object_index RJSValidatedValueToNumber) arguments) l
    = mkOutcome l (inr None) (Some e).
Proof.
  intros l arguments e Hargc Hbad.
  unfold LIST_METHOD, ListSplice. rewrite method_outcome.
  erewrite bind_run; [|reflexivity].
  erewrite bind_run; [|apply RJSValidateArgumentCountIsAtLeast_run; exact Hargc].
  destruct Hbad as [H0|(Hargc2 & [number H0] & H1)].
  - erewrite bind_throws; [|rewrite H0; reflexivity]. reflexivity.
  - erewrite bind_run; [|rewrite H0; reflexivity].
    cbv zeta. erewrite bind_throws; cycle 1.
    { destruct (Z.ltb_spec (argumentCount arguments) 2); [lia|].
      erewrite bind_throws; [|rewrite H1; reflexivity]. reflexivity. }
    reflexivity.
Qed.


End SpliceOutcomes.

(** ** How the mutating methods compose *)

Lemma ListPop_run (rows : list Row) (last : Row) :
  invoke (LIST_METHOD ListPop []) (mkList (rows ++ [last]) true)
  = mkOutcome (mkList rows true) (inr (Some (RJSObjectCreate last))) None.
Proof.
  assert (Hlen : size_of (mkList (rows ++ [last]) true) - 1 = Z.of_nat (length rows)).
  { unfold size_of. simpl. rewrite length_app. simpl. lia. }
  unfold LIST_METHOD, ListPop. rewrite method_outcome.
  erewrite bind_run; [|reflexivity].
  erewrite bind_run; [|reflexivity].
  cbn [this].
  destruct (Z.eqb_spec (size_of (mkList (rows ++ [last]) true)) 0) as [H0|_]; [lia|].
  cbv zeta. rewrite Hlen.
  erewrite bind_run; [| apply (List_get_run _ _ last); [lia|];
    cbn; rewrite Nat2Z.id; apply list_lookup_middle; reflexivity].
  erewrite bind_run; [|reflexivity].
  rewrite List_remove_run; [| reflexivity | cbn [this]; lia].
  unfold set_rows. cbn. rewrite Nat2Z.id, delete_middle, app_nil_r. reflexivity.
Qed.

Lemma ListShift_run (first : Row) (rows : list Row) :
  invoke (LIST_METHOD ListShift []) (mkList (first :: rows) true)
  = mkOutcome (mkList rows true) (inr (Some (RJSObjectCreate first))) None.
Proof. reflexivity. Qed.

Section Composition.

Variable to_object_index : JSValue -> exn + Row.
Variable RJSValidatedValueToNumber : JSValue -> exn + Z.

Lemma ListUnshift_run (l : List) (values : list JSValue) (rows : list Row) :
  in_transaction l = true ->
  values <> [] ->
  marshals to_object_index values rows ->
  invoke (LIST_METHOD (ListUnshift to_object_index) values) l
  = mkOutcome (mkList (rows ++ link_view l) true)
              (inr (Some (JSNumber (size_of l + Z.of_nat (length values))))) None.
Proof.
  intros Htx Hvalues Hrows.
  unfold LIST_METHOD, ListUnshift. rewrite method_outcome.
  erewrite bind_run; [| apply RJSValidateArgumentCountIsAtLeast_run;
    destruct values; [congruence | unfold argumentCount; simpl; lia]].
  erewrite bind_run;
    [| apply (unshift_loop_run _ values rows Hrows (mkFrame l None None) []
                (link_view l) Htx eq_refl)].
  unfold set_rows. cbn. unfold size_of. cbn.
  rewrite Htx, length_app, <- (Forall2_length _ _ _ Hrows), Nat2Z.inj_add, Z.add_comm.
  reflexivity.
Qed.

(** X6: [splice] subsumes the four other mutators.  Inside a write
    transaction, with a start and a delete count within [long] and
    items of the element schema: for at least one item, a start at or
    beyond the size leaves the list that [push] of the items leaves,
    and start 0 with a delete count of at most 0 the list that
    [unshift] leaves, both returning an empty array; on a non-empty
    list and without items, [splice(0, 1)] leaves the list of [shift]
    and [splice(-1, 1)] that of [pop], each returning the array of the
    one element that the other method returns. *)
Theorem ListSplice_subsumes_other_mutators :
  forall (l : List) (a0 a1 : JSValue) (items : list JSValue) (rows : list Row)
         (number number1 : Z),
    let splice :=
      invoke (LIST_METHOD (ListSplice to_object_index RJSValidatedValueToNumber)
                          (a0 :: a1 :: items)) l in
    in_transaction l = true ->
    size_of l + argumentCount (a0 :: a1 :: items) <= LONG_MAX ->
    RJSValidatedValueToNumber a0 = inr number ->
    in_long number ->
    RJSValidatedValueToNumber a1 = inr number1 ->
    in_long number1 ->
    marshals to_object_index items rows ->
    (size_of l <= number -> items <> [] ->
     list_after splice
     = list_after (invoke (LIST_METHOD (ListPush to_object_index) items) l)
     /\ result splice = inr (Some (JSArray [])))
    /\ (number = 0 -> number1 <= 0 -> items <> [] ->
        list_after splice
        = list_after (invoke (LIST_METHOD (ListUnshift to_object_index) items) l)
        /\ result splice = inr (Some (JSArray [])))
    /\ (number = 0 -> number1 = 1 -> items = [] -> link_view l <> [] ->
        exists element : JSValue,
          result (invoke (LIST_METHOD ListShift []) l) = inr (Some element)
          /\ result splice = inr (Some (JSArray [element]))
          /\ list_after splice = list_after (invoke (LIST_METHOD ListShift []) l))
    /\ (number = -1 -> number1 = 1 -> items = [] -> link_view l <> [] ->
        exists element : JSValue,
          result (invoke (LIST_METHOD ListPop []) l) = inr (Some element)
          /\ result splice = inr (Some (JSArray [element]))
          /\ list_after splice = list_after (invoke (LIST_METHOD ListPop []) l)).
Proof.
  intros l a0 a1 items rows number number1 splice
    Htx Hmax Hnumber Hlong Hnumber1 Hlong1 Hrows.
  assert (Hargc : argumentCount (a0 :: a1 :: items) = 2 + Z.of_nat (length items)).
  { unfold argumentCount. simpl. lia. }
  assert (Hsize : 0 <= size_of l) by (unfold size_of; lia).
  assert (Hsplice : splice
    = mkOutcome
        (mkList (take (Z.to_nat (splice_start (size_of l) number)) (link_view l) ++ rows
           ++ drop (Z.to_nat (splice_start (size_of l) number
                              + splice_deleteCount (size_of l)
                                  (splice_start (size_of l) number) (Some number1)))
                (link_view l)) true)
        (inr (Some (JSArray (RJSObjectCreate
           <$> take (Z.to_nat (splice_deleteCount (size_of l)
                               (splice_start (size_of l) number) (Some number1)))
                 (drop (Z.to_nat (splice_start (size_of l) number)) (link_view l))))))
        None).
  { apply (ListSplice_run to_object_index RJSValidatedValueToNumber l
             (a0 :: a1 :: items) number (Some number1) rows);
      [exact Htx | exact Hmax | lia | exact Hnumber | exact Hlong
       | split; [lia | split; [exact Hnumber1 | exact Hlong1]] | exact Hrows]. }
  rewrite Hsplice. clear Hsplice splice.
  split; [|split; [|split]].
  - intros Hbeyond Hitems.
    rewrite (ListPush_run to_object_index l items rows Htx Hitems Hrows).
    assert (Hstart : splice_start (size_of l) number = size_of l).
    { unfold splice_start. cbv zeta.
      destruct (Z.ltb_spec (Z.min number (size_of l)) 0); lia. }
    rewrite Hstart. unfold splice_deleteCount, clamp.
    replace (Z.min (Z.max number1 0) (size_of l - size_of l)) with 0 by lia.
    rewrite Z.add_0_r. unfold size_of. rewrite Nat2Z.id.
    cbn. rewrite take_ge, drop_ge by lia. rewrite app_nil_r. split; reflexivity.
  - intros -> Hnone Hitems.
    rewrite (ListUnshift_run l items rows Htx Hitems Hrows).
    assert (Hstart : splice_start (size_of l) 0 = 0).
    { unfold splice_start. cbv zeta.
      destruct (Z.ltb_spec (Z.min 0 (size_of l)) 0); lia. }
    rewrite Hstart. unfold splice_deleteCount, clamp.
    replace (Z.min (Z.max number1 0) (size_of l - 0)) with 0 by lia.
    cbn. split; reflexivity.
  - intros -> -> -> Hnonempty.
    destruct l as [[|first lv] tx]; [cbn in Hnonempty; congruence|]. cbn in Htx. subst tx.
    apply Forall2_nil_inv_l in Hrows as ->.
    exists (RJSObjectCreate first). rewrite ListShift_run.
    assert (Hstart : splice_start (size_of (mkList (first :: lv) true)) 0 = 0).
    { unfold splice_start. cbv zeta.
      destruct (Z.ltb_spec (Z.min 0 (size_of (mkList (first :: lv) true))) 0); lia. }
    rewrite Hstart. unfold splice_deleteCount, clamp.
    replace (Z.min (Z.max 1 0) (size_of (mkList (first :: lv) true) - 0)) with 1
      by (unfold size_of; cbn [link_view length]; lia).
    cbn. repeat split.
  - intros -> -> -> Hnonempty.
    destruct l as [lv tx]. cbn in Htx, Hnonempty. subst tx.
    destruct (exists_last Hnonempty) as (front & last & ->).
    apply Forall2_nil_inv_l in Hrows as ->.
    exists (RJSObjectCreate last). rewrite ListPop_run.
    assert (Hlen : size_of (mkList (front ++ [last]) true) = Z.of_nat (length front) + 1).
    { unfold size_of. cbn [link_view]. rewrite length_app. simpl. lia. }
    assert (Hstart : splice_start (size_of (mkList (front ++ [last]) true)) (-1)
                     = Z.of_nat (length front)).
    { unfold splice_start. cbv zeta. rewrite Hlen.
      destruct (Z.ltb_spec (Z.min (-1) (Z.of_nat (length front) + 1)) 0); lia. }
    rewrite Hstart. unfold splice_deleteCount, clamp. rewrite Hlen.
    replace (Z.min (Z.max 1 0) (Z.of_nat (length front) + 1 - Z.of_nat (length front)))
      with 1 by lia.
    replace (Z.to_nat (Z.of_nat (length front) + 1)) with (S (length front)) by lia.
    rewrite Nat2Z.id. cbn [link_view].
    rewrite take_app_length, drop_app_length, drop_ge
      by (rewrite length_app; simpl; lia).
    cbn. rewrite app_nil_r. repeat split.
Qed.

(** X7: removing what was just added restores the list.  Inside a
    write transaction, [pop] after a [push] returns the last value
    pushed and leaves the list with the other pushed values at its end;
    [shift] after an [unshift] returns the first value and leaves the
    list with the other values in front.  With a single value the list
    is the one before the two calls. *)
Theorem push_pop_and_unshift_shift_round_trip :
  forall (l : List) (values : list JSValue) (row : Row) (rows : list Row),
    in_transaction l = true ->
    (marshals to_object_index values (rows ++ [row]) ->
     invoke (LIST_METHOD ListPop [])
       (list_after (invoke (LIST_METHOD (ListPush to_object_index) values) l))
     = mkOutcome (mkList (link_view l ++ rows) true)
                 (inr (Some (RJSObjectCreate row))) None)
    /\ (marshals to_object_index values (row :: rows) ->
        invoke (LIST_METHOD ListShift [])
          (list_after (invoke (LIST_METHOD (ListUnshift to_object_index) values) l))
        = mkOutcome (mkList (rows ++ link_view l) true)
                    (inr (Some (RJSObjectCreate row))) None)
    /\ (marshals to_object_index values [row] ->
        list_after (invoke (LIST_METHOD ListPop [])
          (list_after (invoke (LIST_METHOD (ListPush to_object_index) values) l))) = l
        /\ list_after (invoke (LIST_METHOD ListShift [])
             (list_after (invoke (LIST_METHOD (ListUnshift to_object_index) values) l))) = l).
Proof.
  intros l values row rows Htx.
  assert (Hpush : forall rows', marshals to_object_index values (rows' ++ [row]) ->
            invoke (LIST_METHOD ListPop [])
              (list_after (invoke (LIST_METHOD (ListPush to_object_index) values) l))
            = mkOutcome (mkList (link_view l ++ rows') true)
                        (inr (Some (RJSObjectCreate row))) None).
  { intros rows' Hrows.
    assert (Hvalues : values <> []).
    { intros ->. apply Forall2_nil_inv_l in Hrows. destruct rows'; discriminate. }
    rewrite (ListPush_run to_object_index l values _ Htx Hvalues Hrows).
    cbn [list_after]. rewrite app_assoc. apply ListPop_run. }
  assert (Hunshift : forall rows', marshals to_object_index values (row :: rows') ->
            invoke (LIST_METHOD ListShift [])
              (list_after (invoke (LIST_METHOD (ListUnshift to_object_index) values) l))
            = mkOutcome (mkList (rows' ++ link_view l) true)
                        (inr (Some (RJSObjectCreate row))) None).
  { intros rows' Hrows.
    assert (Hvalues : values <> []).
    { intros ->. apply Forall2_nil_inv_l in Hrows. discriminate. }
    rewrite (ListUnshift_run l values _ Htx Hvalues Hrows).
    cbn [list_after]. apply ListShift_run. }
  split; [apply Hpush|]. split; [apply Hunshift|].
  intros Hrows. split.
  - rewrite (Hpush [] Hrows). cbn. rewrite app_nil_r, <- Htx. destruct l; reflexivity.
  - rewrite (Hunshift [] Hrows). cbn. rewrite <- Htx. destruct l; reflexivity.
Qed.

End Composition.

(** ** Without a write transaction *)

Lemma keeps_list_ret {A : Type} (a : A) : keeps_list (ret a).
Proof. intros f f' r _ [= <- _]. reflexivity. Qed.

Lemma keeps_list_throw {A : Type} (e : exn) : keeps_list (@throw A e).
Proof. intros f f' r _ [= <- _]. reflexivity. Qed.

Lemma keeps_list_lift {A : Type} (x : exn + A) : keeps_list (lift x).
Proof. destruct x; [apply keeps_list_throw | apply keeps_list_ret]. Qed.

Lemma keeps_list_bind {A B : Type} (m : M A) (k : A -> M B) :
  keeps_list m -> (forall a, keeps_list (k a)) -> keeps_list (bind m k).
Proof.
  intros Hm Hk f f' r Htx. unfold bind.
  destruct (m f) as [f1 [e|a]] eqn:Hrun.
  - intros [= <- _]. exact (Hm _ _ _ Htx Hrun).
  - intros Hrest. pose proof (Hm _ _ _ Htx Hrun) as H1.
    rewrite <- H1. apply (Hk a _ _ _) in Hrest; [exact Hrest|].
    rewrite H1. exact Htx.
Qed.

Lemma keeps_list_try_catch {A : Type} (body : M A) (handler : exn -> M A) :
  keeps_list body -> (forall e, keeps_list (handler e)) ->
  keeps_list (try_catch body handler).
Proof.
  intros Hbody Hhandler f f' r Htx. unfold try_catch.
  destruct (body f) as [f1 [e|a]] eqn:Hrun.
  - intros Hrest. pose proof (Hbody _ _ _ Htx Hrun) as H1.
    rewrite <- H1. apply (Hhandler e _ _ _) in Hrest; [exact Hrest|].
    rewrite H1. exact Htx.
  - intros [= <- _]. exact (Hbody _ _ _ Htx Hrun).
Qed.

Lemma keeps_list_get_list : keeps_list get_list.
Proof. intros f f' r _ [= <- _]. reflexivity. Qed.

Lemma keeps_list_set_returnObject v : keeps_list (set_returnObject v).
Proof. intros f f' r _ [= <- _]. reflexivity. Qed.

Lemma keeps_list_get_returnObject : keeps_list get_returnObject.
Proof. intros f f' r _ [= <- _]. reflexivity. Qed.

Lemma keeps_list_RJSSetException e : keeps_list (RJSSetException e).
Proof. intros f f' r _ [= <- _]. reflexivity. Qed.

Lemma keeps_list_List_size : keeps_list List_size.
Proof. intros f f' r _ [= <- _]. reflexivity. Qed.

Lemma keeps_list_List_verify_in_transaction : keeps_list List_verify_in_transaction.
Proof.
  intros f f' r _ H. apply List_verify_in_transaction_frame in H. subst. reflexivity.
Qed.

Lemma keeps_list_List_get index : keeps_list (List_get index).
Proof. intros f f' r _ H. apply List_get_frame in H. subst. reflexivity. Qed.

Lemma keeps_list_List_remove index : keeps_list (List_remove index).
Proof.
  intros f f' r Htx.
  unfold List_remove, List_size, List_verify_in_transaction, bind, get_list, ret,
    throw, put_link_view. simpl.
  destruct (index <? size_of (this f)); [|intros [= <- _]; reflexivity].
  rewrite Htx. intros [= <- _]. reflexivity.
Qed.

Lemma keeps_list_validate_exact argc expected :
  keeps_list (RJSValidateArgumentCount argc expected).
Proof.
  unfold RJSValidateArgumentCount.
  destruct (argc =? expected); [apply keeps_list_ret | apply keeps_list_throw].
Qed.

Lemma keeps_list_validate_at_least argc min :
  keeps_list (RJSValidateArgumentCountIsAtLeast argc min).
Proof.
  unfold RJSValidateArgumentCountIsAtLeast.
  destruct (argc <? min); [apply keeps_list_throw | apply keeps_list_ret].
Qed.

Create HintDb keeps_list.
#[local] Hint Resolve
  keeps_list_ret keeps_list_throw keeps_list_lift keeps_list_get_list
  keeps_list_set_returnObject keeps_list_get_returnObject keeps_list_RJSSetException
  keeps_list_List_size keeps_list_List_verify_in_transaction keeps_list_List_get
  keeps_list_List_remove keeps_list_validate_exact keeps_list_validate_at_least
  : keeps_list.

Ltac solve_keeps_list :=
  repeat first
    [ solve [auto with keeps_list]
    | apply keeps_list_try_catch
    | apply keeps_list_bind
    | progress intros
    | match goal with
      | |- keeps_list (if ?b then _ else _) => destruct b
      | |- keeps_list (let _ := _ in _) => cbv zeta
      end ].

Section OutsideTransaction.

Variable to_object_index : JSValue -> exn + Row.
Variable RJSValidatedValueToNumber : JSValue -> exn + Z.

Lemma keeps_list_List_add value : keeps_list (List_add to_object_index value).
Proof.
  intros f f' r Htx.
  unfold List_add, List_verify_in_transaction, bind, get_list, ret, throw. simpl.
  rewrite Htx. intros [= <- _]. reflexivity.
Qed.

Lemma keeps_list_List_insert value index :
  keeps_list (List_insert to_object_index value index).
Proof.
  intros f f' r Htx.
  unfold List_insert, List_verify_in_transaction, bind, get_list, ret, throw. simpl.
  rewrite Htx. intros [= <- _]. reflexivity.
Qed.

Lemma keeps_list_List_set value index :
  keeps_list (List_set to_object_index value index).
Proof.
  intros f f' r Htx.
  unfold List_set, List_size, List_verify_in_transaction, bind, get_list, ret,
    throw. simpl.
  destruct (index <? size_of (this f)); [|intros [= <- _]; reflexivity].
  rewrite Htx. intros [= <- _]. reflexivity.
Qed.

Lemma keeps_list_push_loop arguments : keeps_list (push_loop to_object_index arguments).
Proof.
  induction arguments as [|value rest IH]; simpl.
  - apply keeps_list_ret.
  - apply keeps_list_bind; [apply keeps_list_List_add | intros _; exact IH].
Qed.

Lemma keeps_list_unshift_loop arguments i :
  keeps_list (unshift_loop to_object_index arguments i).
Proof.
  revert i. induction arguments as [|value rest IH]; intros i; simpl.
  - apply keeps_list_ret.
  - apply keeps_list_bind; [apply keeps_list_List_insert | intros _; apply IH].
Qed.

Lemma keeps_list_splice_remove_loop count index removedObjects :
  keeps_list (splice_remove_loop count index removedObjects).
Proof.
  revert removedObjects. induction count as [|count IH]; intros removedObjects; simpl.
  - apply keeps_list_ret.
  - apply keeps_list_bind; [apply keeps_list_List_get|]. intros row.
    apply keeps_list_bind; [apply keeps_list_List_remove|]. intros _. apply IH.
Qed.

Lemma keeps_list_splice_insert_loop arguments i index :
  keeps_list (splice_insert_loop to_object_index arguments i index).
Proof.
  revert i. induction arguments as [|value rest IH]; intros i; simpl.
  - apply keeps_list_ret.
  - apply keeps_list_bind; [apply keeps_list_List_insert | intros _; apply IH].
Qed.

#[local] Hint Resolve
  keeps_list_List_add keeps_list_List_insert keeps_list_List_set
  keeps_list_push_loop keeps_list_unshift_loop keeps_list_splice_remove_loop
  keeps_list_splice_insert_loop : keeps_list.

Lemma invoke_keeps_list {A : Type} (m : M A) (l : List) :
  keeps_list m -> in_transaction l = false -> list_after (invoke m l) = l.
Proof.
  intros Hm Htx. unfold invoke.
  destruct (m (mkFrame l None None)) as [f' r] eqn:Hrun.
  exact (Hm (mkFrame l None None) f' r Htx Hrun).
Qed.

(** X14: without a write transaction no entry point changes the list,
    whatever its arguments and whether it raises or not: the five
    mutating methods and the property write leave the list as it was. *)
Theorem no_mutation_outside_transaction :
  forall (l : List) (arguments : list JSValue) (key : string) (value : JSValue),
    in_transaction l = false ->
    list_after (invoke (LIST_METHOD (ListPush to_object_index) arguments) l) = l
    /\ list_after (invoke (LIST_METHOD ListPop arguments) l) = l
    /\ list_after (invoke (LIST_METHOD ListShift arguments) l) = l
    /\ list_after (invoke (LIST_METHOD (ListUnshift to_object_index) arguments) l) = l
    /\ list_after
         (invoke (LIST_METHOD (ListSplice to_object_index RJSValidatedValueToNumber)
                              arguments) l) = l
    /\ list_after (invoke (ListSetProperty to_object_index key value) l) = l.
Proof.
  intros l arguments key value Htx.
  repeat split; apply invoke_keeps_list; try exact Htx;
    unfold LIST_METHOD, ListPush, ListPop, ListShift, ListUnshift, ListSplice,
      ListSetProperty, RJSSetReturnNumber, RJSSetReturnUndefined, RJSSetReturnArray;
    solve_keeps_list.
Qed.

End OutsideTransaction.

(** ** Property reads and writes *)

Lemma RJSValidatedPositiveIndex_nonnegative key i :
  RJSValidatedPositiveIndex key = inr i -> 0 <= i.
Proof.
  intros Hkey. apply RJSValidatedPositiveIndex_inr in Hkey as (Hmatch & <- & _).
  apply sprintf_zu_decimal_value. exact Hmatch.
Qed.

Lemma RJSValidatedPositiveIndex_inl key e :
  RJSValidatedPositiveIndex key = inl e -> e = NotAnIndexKey.
Proof.
  unfold RJSValidatedPositiveIndex.
  destruct (matches_canonical_index key); [|congruence].
  destruct (decimal_value 0 key <=? LONG_MAX); congruence.
Qed.

(** The read of a key that is an index, in range or not. *)
Lemma ListGetProperty_index (l : List) (key : string) (i : Z) :
  RJSValidatedPositiveIndex key = inr i ->
  invoke (ListGetProperty key) l
  = mkOutcome l
      (inr (Some (match link_view l !! Z.to_nat i with
                  | Some row => RJSObjectCreate row
                  | None => JSUndefined
                  end)))
      None.
Proof.
  intros Hindex.
  pose proof (index_key_is_not_length key i Hindex) as Hkey.
  pose proof (RJSValidatedPositiveIndex_nonnegative key i Hindex) as Hpos.
  unfold invoke, ListGetProperty. cbv zeta. rewrite Hkey.
  destruct (link_view l !! Z.to_nat i) as [row|] eqn:Hrow.
  - erewrite try_catch_run; cycle 1.
    { erewrite bind_run; [|rewrite Hindex; reflexivity].
      erewrite bind_run; [|apply (List_get_run _ _ row); [exact Hpos | exact Hrow]].
      reflexivity. }
    destruct l; reflexivity.
  - apply lookup_ge_None in Hrow.
    erewrite try_catch_throws; cycle 1.
    { erewrite bind_run; [|rewrite Hindex; reflexivity].
      erewrite bind_throws; [|apply List_get_out_of_range; unfold size_of; cbn [this]; lia].
      reflexivity. }
    destruct l; reflexivity.
Qed.

Lemma sprintf_zu_injective (i j : nat) :
  sprintf_zu (Z.of_nat i) = sprintf_zu (Z.of_nat j) -> i = j.
Proof.
  intros H. apply (f_equal (decimal_value 0)) in H.
  rewrite !decimal_value_sprintf_zu in H by lia. lia.
Qed.

Section PropertyAccess.

Variable to_object_index : JSValue -> exn + Row.

Lemma ListSetProperty_index (l : List) (key : string) (i : Z) (value : JSValue) (row : Row) :
  RJSValidatedPositiveIndex key = inr i ->
  i < size_of l ->
  in_transaction l = true ->
  to_object_index value = inr row ->
  invoke (ListSetProperty to_object_index key value) l
  = mkOutcome (mkList (<[Z.to_nat i := row]> (link_view l)) true) (inr true) None.
Proof.
  intros Hindex Hlt Htx Hrow.
  pose proof (index_key_is_not_length key i Hindex) as Hkey.
  pose proof (RJSValidatedPositiveIndex_nonnegative key i Hindex) as Hpos.
  unfold invoke, ListSetProperty. cbv zeta. rewrite Hkey.
  erewrite try_catch_run; cycle 1.
  { erewrite bind_run; [|reflexivity].
    erewrite bind_run; [|rewrite Hindex; reflexivity].
    erewrite bind_run;
      [| apply List_set_run; [exact Htx | cbn [this]; lia | exact Hrow]].
    reflexivity. }
  unfold set_rows. cbn. rewrite Htx. reflexivity.
Qed.

(** X8: a property write is read back.  Inside a write transaction,
    after [list[i] = value] for an index [i] below the size and a value
    of the element schema, reading [i] gives the object of that value,
    the size is unchanged, and every other index reads as before. *)
Theorem property_write_then_read :
  forall (l : List) (i : Z) (value : JSValue) (row : Row),
    in_transaction l = true ->
    0 <= i < size_of l ->
    i <= LONG_MAX ->
    to_object_index value = inr row ->
    let after :=
      list_after (invoke (ListSetProperty to_object_index (sprintf_zu i) value) l) in
    invoke (ListGetProperty (sprintf_zu i)) after
    = mkOutcome after (inr (Some (RJSObjectCreate row))) None
    /\ size_of after = size_of l
    /\ forall j : Z,
         0 <= j <= LONG_MAX -> j <> i ->
         result (invoke (ListGetProperty (sprintf_zu j)) after)
         = result (invoke (ListGetProperty (sprintf_zu j)) l).
Proof.
  intros l i value row Htx Hi Hmax Hrow after.
  assert (Hkey : RJSValidatedPositiveIndex (sprintf_zu i) = inr i)
    by (apply RJSValidatedPositiveIndex_sprintf_zu; lia).
  assert (Hafter : after = mkList (<[Z.to_nat i := row]> (link_view l)) true).
  { unfold after.
    rewrite (ListSetProperty_index l _ i value row Hkey (proj2 Hi) Htx Hrow).
    reflexivity. }
  rewrite Hafter. clear Hafter after.
  unfold size_of in Hi.
  split; [|split].
  - rewrite (ListGetProperty_index _ _ i Hkey). cbn [link_view].
    rewrite list_lookup_insert_eq by lia. reflexivity.
  - unfold size_of. cbn [link_view]. rewrite length_insert. reflexivity.
  - intros j Hj Hne.
    assert (Hkeyj : RJSValidatedPositiveIndex (sprintf_zu j) = inr j)
      by (apply RJSValidatedPositiveIndex_sprintf_zu; lia).
    rewrite !(ListGetProperty_index _ _ j Hkeyj). cbn [link_view result].
    rewrite list_lookup_insert_ne by lia. reflexivity.
Qed.

(** X9: what a property write can do.  It returns [true] exactly when
    the key is an index below the size, a write transaction is active
    and the value is of the element schema, and then it raises nothing;
    when it returns [false] the list is as it was; in every case it
    returns [true] or [false] and the size and the transaction state
    are unchanged. *)
Theorem ListSetProperty_outcomes :
  forall (l : List) (key : string) (value : JSValue),
    let out := invoke (ListSetProperty to_object_index key value) l in
    (result out = inr true <->
     exists (i : Z) (row : Row),
       RJSValidatedPositiveIndex key = inr i /\ i < size_of l
       /\ in_transaction l = true /\ to_object_index value = inr row)
    /\ (result out = inr true -> jsException out = None)
    /\ (result out = inr false -> list_after out = l)
    /\ (result out = inr true \/ result out = inr false)
    /\ size_of (list_after out) = size_of l
    /\ in_transaction (list_after out) = in_transaction l.
Proof.
  intros [lv tx] key value.
  unfold invoke, ListSetProperty, try_catch. cbv zeta.
  destruct (String.eqb key "length") eqn:Hkey.
  { cbn. repeat split; try discriminate; auto.
    intros (i & row & Hindex & _).
    apply index_key_is_not_length in Hindex. congruence. }
  erewrite bind_run; [|reflexivity].
  destruct (RJSValidatedPositiveIndex key) as [e|i] eqn:Hindex.
  { apply RJSValidatedPositiveIndex_inl in Hindex as He. subst e.
    cbn. repeat split; try discriminate; auto.
    intros (i & row & [=] & _). }
  erewrite bind_run; [|reflexivity].
  unfold bind at 1. unfold List_set, List_size, List_verify_in_transaction, bind,
    get_list, ret, throw, lift, put_link_view, set_rows. cbn.
  destruct (Z.ltb_spec i (size_of (mkList lv tx))) as [Hlt|Hge].
  2:{ cbn. repeat split; try discriminate; auto.
      intros (i' & row & [= <-] & Hlt & _). lia. }
  destruct tx.
  2:{ cbn. repeat split; try discriminate; auto.
      intros (i' & row & _ & _ & [=] & _). }
  destruct (to_object_index value) as [e|row] eqn:Hrow.
  { destruct e; cbn; repeat split; try discriminate; auto;
      intros (i' & row & _ & _ & _ & [=]). }
  cbn. repeat split; auto.
  - intros _. exists i, row. auto.
  - discriminate.
  - unfold size_of. cbn. rewrite length_insert. reflexivity.
Qed.

End PropertyAccess.

(** X10: the enumerated names are the readable ones.  For a list whose
    size is within [long], reading the property of every enumerated
    name gives the object of the element at the position of the name,
    never undefined and never the not-handled result; the name after
    the last reads as undefined; and no name is enumerated twice. *)
Theorem enumerated_names_are_readable :
  forall l : List,
    size_of l <= LONG_MAX ->
    (forall (i : nat) (name : string),
        ListPropertyNames l !! i = Some name ->
        exists row : Row,
          link_view l !! i = Some row
          /\ invoke (ListGetProperty name) l
             = mkOutcome l (inr (Some (RJSObjectCreate row))) None)
    /\ invoke (ListGetProperty (sprintf_zu (size_of l))) l
       = mkOutcome l (inr (Some JSUndefined)) None
    /\ NoDup (ListPropertyNames l).
Proof.
  intros l Hmax. unfold size_of in Hmax. split; [|split].
  - intros i name. rewrite ListPropertyNames_run, list_lookup_fmap.
    destruct (seq 0 (length (link_view l)) !! i) as [k|] eqn:Hk; [|discriminate].
    apply lookup_seq in Hk as [-> Hlt]. simpl. intros [= <-].
    destruct (lookup_lt_is_Some_2 (link_view l) i Hlt) as [row Hrow].
    exists row. split; [exact Hrow|].
    rewrite (ListGetProperty_index l _ (Z.of_nat i));
      [| apply RJSValidatedPositiveIndex_sprintf_zu; lia].
    rewrite Nat2Z.id, Hrow. reflexivity.
  - rewrite (ListGetProperty_index l _ (size_of l));
      [| apply RJSValidatedPositiveIndex_sprintf_zu; unfold size_of; lia].
    unfold size_of. rewrite Nat2Z.id.
    rewrite (proj2 (lookup_ge_None _ _)) by lia. reflexivity.
  - rewrite ListPropertyNames_run.
    apply NoDup_fmap_2_strong; [|apply NoDup_seq].
    intros i j _ _ Hij. apply sprintf_zu_injective. exact Hij.
Qed.

(** ** The query methods and the method names *)

Lemma property_hooks_decline (to_object_index : JSValue -> exn + Row)
    (l : List) (key : string) (value : JSValue) :
  classify key = NotAnIndex ->
  invoke (ListGetProperty key) l = mkOutcome l (inr None) None
  /\ invoke (ListSetProperty to_object_index key value) l = mkOutcome l (inr false) None.
Proof.
  unfold classify.
  destruct (String.eqb key "length") eqn:Hkey; [discriminate|].
  destruct (RJSValidatedPositiveIndex key) as [e|i] eqn:Hindex; [|discriminate].
  intros _. apply RJSValidatedPositiveIndex_inl in Hindex as He. subst e.
  split.
  - unfold invoke, ListGetProperty. cbv zeta. rewrite Hkey.
    erewrite try_catch_throws; cycle 1.
    { erewrite bind_throws; [reflexivity|]. rewrite Hindex. reflexivity. }
    destruct l; reflexivity.
  - unfold invoke, ListSetProperty. cbv zeta. rewrite Hkey.
    erewrite try_catch_throws; cycle 1.
    { erewrite bind_run; [|reflexivity].
      erewrite bind_throws; [reflexivity|]. rewrite Hindex. reflexivity. }
    destruct l; reflexivity.
Qed.

Section QueryMethodOutcomes.

Variable RJSResultsCreateFiltered : Query -> list JSValue -> exn + JSValue.
Variable RJSResultsCreateSorted : Query -> list JSValue -> exn + JSValue.
Variable to_object_index : JSValue -> exn + Row.
Variable RJSValidatedValueToNumber : JSValue -> exn + Z.

(** X11: the outcomes of [filtered] and [sorted].  [filtered] without
    an argument, and [sorted] with none or with more than two, fail
    with [InvalidArgumentCount] whatever the view system would answer;
    otherwise the call hands the list's query and all its arguments to
    the view system and returns its view or raises its exception.  In
    every case the list is unchanged, and no write transaction is
    needed. *)
Theorem ListFiltered_ListSorted_outcomes :
  forall (l : List) (arguments : list JSValue),
    invoke (LIST_METHOD (ListFiltered RJSResultsCreateFiltered) arguments) l
    = (if argumentCount arguments <? 1
       then mkOutcome l (inr None) (Some InvalidArgumentCount)
       else match RJSResultsCreateFiltered QueryLinkView arguments with
            | inr view => mkOutcome l (inr (Some view)) None
            | inl e => mkOutcome l (inr None) (Some e)
            end)
    /\ invoke (LIST_METHOD (ListSorted RJSResultsCreateSorted) arguments) l
       = (if (argumentCount arguments <? 1) || (2 <? argumentCount arguments)
          then mkOutcome l (inr None) (Some InvalidArgumentCount)
          else match RJSResultsCreateSorted QueryLinkView arguments with
               | inr view => mkOutcome l (inr (Some view)) None
               | inl e => mkOutcome l (inr None) (Some e)
               end).
Proof.
  intros [lv tx] arguments. split.
  - unfold LIST_METHOD, ListFiltered. rewrite method_outcome.
    unfold bind at 1. unfold RJSValidateArgumentCountIsAtLeast.
    destruct (argumentCount arguments <? 1); [reflexivity|].
    unfold ret at 1. erewrite bind_run; [|reflexivity].
    unfold bind at 1.
    destruct (RJSResultsCreateFiltered QueryLinkView arguments); reflexivity.
  - unfold LIST_METHOD, ListSorted. rewrite method_outcome.
    unfold bind at 1. unfold RJSValidateArgumentRange.
    destruct ((argumentCount arguments <? 1) || (2 <? argumentCount arguments));
      [reflexivity|].
    unfold ret at 1. erewrite bind_run; [|reflexivity].
    unfold bind at 1.
    destruct (RJSResultsCreateSorted QueryLinkView arguments); reflexivity.
Qed.

(** X12: reading needs no write transaction.  A property read, the
    enumeration of the names and [snapshot] give the same result with
    and without a write transaction, and leave the list as it is. *)
Theorem reads_ignore_the_transaction :
  forall (rows : list Row) (tx : bool) (key : string) (arguments : list JSValue),
    let l := mkList rows tx in
    let inside := mkList rows true in
    invoke (ListGetProperty key) l
    = mkOutcome l (result (invoke (ListGetProperty key) inside))
                  (jsException (invoke (ListGetProperty key) inside))
    /\ ListPropertyNames l = ListPropertyNames inside
    /\ invoke (LIST_METHOD ListStaticResults arguments) l
       = mkOutcome l (result (invoke (LIST_METHOD ListStaticResults arguments) inside))
                     (jsException (invoke (LIST_METHOD ListStaticResults arguments) inside)).
Proof.
  intros rows tx key arguments l inside. split; [|split].
  - destruct (String.eqb key "length") eqn:Hlength.
    + apply String.eqb_eq in Hlength as ->. reflexivity.
    + destruct (RJSValidatedPositiveIndex key) as [e|i] eqn:Hindex.
      * assert (Hclass : classify key = NotAnIndex).
        { unfold classify. rewrite Hlength, Hindex. reflexivity. }
        rewrite (proj1 (property_hooks_decline to_object_index l key JSUndefined Hclass)).
        rewrite (proj1 (property_hooks_decline to_object_index inside key JSUndefined
                          Hclass)).
        reflexivity.
      * rewrite !(ListGetProperty_index _ key i Hindex). reflexivity.
  - reflexivity.
  - unfold LIST_METHOD, ListStaticResults. rewrite !method_outcome.
    unfold bind at 1 3. unfold RJSValidateArgumentCount.
    destruct (argumentCount arguments =? 0); reflexivity.
Qed.

(** X13: the names of the methods are left to the host.  The names in
    [RJSListFuncs] are pairwise distinct, and for each of them the
    property read returns the not-handled result and the property write
    returns [false], neither raising nor changing the list, so that the
    host goes on to the static functions of the class. *)
Theorem method_names_are_not_handled :
  let names :=
    (RJSListFuncs RJSResultsCreateFiltered RJSResultsCreateSorted
                  to_object_index RJSValidatedValueToNumber).*1 in
  names = ["push"; "pop"; "shift"; "unshift"; "splice"; "filtered"; "sorted";
           "snapshot"]%string
  /\ NoDup names
  /\ forall (name : string) (l : List) (value : JSValue),
       name ∈ names ->
       invoke (ListGetProperty name) l = mkOutcome l (inr None) None
       /\ invoke (ListSetProperty to_object_index name value) l
          = mkOutcome l (inr false) None.
Proof.
  intros names. split; [reflexivity|]. split.
  - unfold names. cbn.
    repeat (constructor;
            [ rewrite ?elem_of_cons, elem_of_nil; intros Hin;
              repeat (destruct Hin as [Hin|Hin]; [discriminate Hin|]); exact Hin |]).
    constructor.
  - intros name l value Hname. apply property_hooks_decline.
    unfold names in Hname. cbn in Hname.
    repeat (apply elem_of_cons in Hname as [->|Hname]; [reflexivity|]).
    apply elem_of_nil in Hname. contradiction.
Qed.

End QueryMethodOutcomes.

(** ** The further properties on concrete calls *)

(** [push(x, 5, y)] on [[a, b]] keeps [x] and raises for [5]. *)
Lemma ListPush_ListUnshift_keep_values_before_rejected_witness :
  let l := mkList [10; 11]%nat true in
  let arguments := [JSRealmObject 20%nat; JSNumber 5; JSRealmObject 21%nat] in
  invoke (LIST_METHOD (ListPush object_index_of) arguments) l
  = mkOutcome (mkList [10; 11; 20]%nat true) (inr None) (Some TypeMismatch)
  /\ invoke (LIST_METHOD (ListUnshift object_index_of) arguments) l
     = mkOutcome (mkList [20; 10; 11]%nat true) (inr None) (Some TypeMismatch).
Proof.
  intros l arguments.
  assert (Hrows : marshals object_index_of [JSRealmObject 20%nat] [20%nat])
    by (repeat constructor).
  exact (ListPush_ListUnshift_keep_values_before_rejected object_index_of l
           [JSRealmObject 20%nat] [20%nat] (JSNumber 5) [JSRealmObject 21%nat]
           TypeMismatch eq_refl Hrows eq_refl).
Defined.


(** [splice(x)] and [splice(0, x)] with an object for a number. *)
Lemma ListSplice_invalid_number_changes_nothing_witness :
  let l := mkList [10; 11]%nat true in
  invoke (LIST_METHOD (ListSplice object_index_of number_of) [JSRealmObject 20%nat]) l
  = mkOutcome l (inr None) (Some TypeMismatch)
  /\ invoke (LIST_METHOD (ListSplice object_index_of number_of)
               [JSNumber 0; JSRealmObject 20%nat]) l
     = mkOutcome l (inr None) (Some TypeMismatch).
Proof.
  intros l. split.
  - apply ListSplice_invalid_number_changes_nothing;
      [vm_compute; discriminate | left; reflexivity].
  - apply ListSplice_invalid_number_changes_nothing; [vm_compute; discriminate|].
    right. split; [vm_compute; discriminate|]. split; [exists 0; reflexivity|].
    reflexivity.
Defined.


(** [splice(2, 0, x)] on [[a, b]] against [push(x)], and [splice(-1, 1)]
    against [pop()]. *)
Lemma ListSplice_subsumes_other_mutators_witness :
  let l := mkList [10; 11]%nat true in
  (list_after (invoke (LIST_METHOD (ListSplice object_index_of number_of)
                         [JSNumber 2; JSNumber 0; JSRealmObject 20%nat]) l)
   = list_after (invoke (LIST_METHOD (ListPush object_index_of) [JSRealmObject 20%nat]) l)
   /\ list_after (invoke (LIST_METHOD (ListPush object_index_of) [JSRealmObject 20%nat]) l)
      = mkList [10; 11; 20]%nat true)
  /\ exists element : JSValue,
       result (invoke (LIST_METHOD ListPop []) l) = inr (Some element)
       /\ result (invoke (LIST_METHOD (ListSplice object_index_of number_of)
                            [JSNumber (-1); JSNumber 1]) l)
          = inr (Some (JSArray [element]))
       /\ list_after (invoke (LIST_METHOD (ListSplice object_index_of number_of)
                                [JSNumber (-1); JSNumber 1]) l)
          = list_after (invoke (LIST_METHOD ListPop []) l).
Proof.
  intros l.
  assert (Hlong : forall z, LONG_MIN <= z <= LONG_MAX -> in_long z) by (intros z H; exact H).
  assert (Hrows : marshals object_index_of [JSRealmObject 20%nat] [20%nat])
    by (repeat constructor).
  split.
  - split; [|reflexivity].
    apply (proj1 (ListSplice_subsumes_other_mutators object_index_of number_of l
                    (JSNumber 2) (JSNumber 0) [JSRealmObject 20%nat] [20%nat] 2 0
                    eq_refl ltac:(vm_compute; discriminate) eq_refl
                    ltac:(vm_compute; split; discriminate) eq_refl
                    ltac:(vm_compute; split; discriminate) Hrows));
      [vm_compute; discriminate | discriminate].
  - apply (proj2 (proj2 (proj2 (ListSplice_subsumes_other_mutators object_index_of
                    number_of l (JSNumber (-1)) (JSNumber 1) [] [] (-1) 1
                    eq_refl ltac:(vm_compute; discriminate) eq_refl
                    ltac:(vm_compute; split; discriminate) eq_refl
                    ltac:(vm_compute; split; discriminate) ltac:(constructor)))));
      [reflexivity | reflexivity | reflexivity | discriminate].
Defined.

(** [push(x)] then [pop()], [unshift(x)] then [shift()], on [[a, b]]. *)
Lemma push_pop_and_unshift_shift_round_trip_witness :
  let l := mkList [10; 11]%nat true in
  list_after (invoke (LIST_METHOD ListPop [])
    (list_after (invoke (LIST_METHOD (ListPush object_index_of) [JSRealmObject 20%nat]) l)))
  = l
  /\ list_after (invoke (LIST_METHOD ListShift [])
       (list_after (invoke (LIST_METHOD (ListUnshift object_index_of)
                              [JSRealmObject 20%nat]) l)))
     = l.
Proof.
  intros l.
  apply (proj2 (proj2 (push_pop_and_unshift_shift_round_trip object_index_of l
                         [JSRealmObject 20%nat] 20%nat [] eq_refl))).
  repeat constructor.
Defined.

(** [list[1] = x] on [[a, b, c]], then [list[1]]. *)
Lemma property_write_then_read_witness :
  let l := mkList [10; 11; 12]%nat true in
  let after := list_after (invoke (ListSetProperty object_index_of "1" (JSRealmObject 20%nat)) l) in
  after = mkList [10; 20; 12]%nat true
  /\ invoke (ListGetProperty "1") after
     = mkOutcome after (inr (Some (JSRealmObject 20%nat))) None.
Proof.
  intros l after. split; [reflexivity|].
  apply (proj1 (property_write_then_read object_index_of l 1 (JSRealmObject 20%nat) 20%nat
                  eq_refl ltac:(vm_compute; split; [discriminate | reflexivity])
                  ltac:(vm_compute; discriminate) eq_refl)).
Defined.

(** A write that returns [true], and one outside a write transaction. *)
Lemma ListSetProperty_outcomes_witness :
  result (invoke (ListSetProperty object_index_of "1" (JSRealmObject 20%nat))
            (mkList [10; 11]%nat true)) = inr true
  /\ list_after (invoke (ListSetProperty object_index_of "1" (JSRealmObject 20%nat))
                   (mkList [10; 11]%nat false)) = mkList [10; 11]%nat false.
Proof.
  split.
  - apply (proj1 (ListSetProperty_outcomes object_index_of (mkList [10; 11]%nat true)
                    "1" (JSRealmObject 20%nat))).
    exists 1, 20%nat. repeat split.
  - apply (proj1 (proj2 (proj2 (ListSetProperty_outcomes object_index_of
                    (mkList [10; 11]%nat false) "1" (JSRealmObject 20%nat))))).
    reflexivity.
Defined.

(** The names of [[a, b]] and their reads. *)
Lemma enumerated_names_are_readable_witness :
  let l := mkList [10; 11]%nat false in
  ListPropertyNames l = ["0"; "1"]%string
  /\ (exists row : Row,
        link_view l !! 1%nat = Some row
        /\ invoke (ListGetProperty "1") l
           = mkOutcome l (inr (Some (RJSObjectCreate row))) None)
  /\ invoke (ListGetProperty "2") l = mkOutcome l (inr (Some JSUndefined)) None.
Proof.
  intros l.
  destruct (enumerated_names_are_readable l ltac:(vm_compute; discriminate))
    as (Hread & Hpast & _).
  split; [reflexivity|]. split; [|exact Hpast].
  exact (Hread 1%nat "1"%string eq_refl).
Defined.

(** ["splice"] is not handled by the property hooks. *)
Lemma method_names_are_not_handled_witness :
  let l := mkList [10; 11]%nat true in
  invoke (ListGetProperty "splice") l = mkOutcome l (inr None) None
  /\ invoke (ListSetProperty object_index_of "splice" JSUndefined) l
     = mkOutcome l (inr false) None.
Proof.
  intros l.
  apply (proj2 (proj2 (method_names_are_not_handled
                         (fun _ _ => inl TypeMismatch) (fun _ _ => inl TypeMismatch)
                         object_index_of number_of))).
  cbn. rewrite !elem_of_cons. tauto.
Defined.

(** Outside a write transaction [push(x)] and [list[0] = x] leave
    [[a, b]] as it is. *)
Lemma no_mutation_outside_transaction_witness :
  let l := mkList [10; 11]%nat false in
  list_after (invoke (LIST_METHOD (ListPush object_index_of) [JSRealmObject 20%nat]) l) = l
  /\ list_after (invoke (ListSetProperty object_index_of "0" (JSRealmObject 20%nat)) l) = l.
Proof.
  intros l.
  destruct (no_mutation_outside_transaction object_index_of number_of l
              [JSRealmObject 20%nat] "0" (JSRealmObject 20%nat) eq_refl)
    as (Hpush & _ & _ & _ & _ & Hset).
  exact (conj Hpush Hset).
Defined.
